(** * Wire messages of the drogulus DHT node: [drogulus/net/messages.py]

    A shallow embedding of the message classes, of [to_msgpack],
    [from_msgpack] and [make_message], and the properties of the codec that
    the design document states about them.

    The module is Python 2 code: [str] is a byte string, a [namedtuple]
    instance is a tuple of field values tagged with its class, and failures
    are exceptions.  Three things the module imports live outside of it and
    are parameters of the development: the [msgpack] library (a type class
    with the contract of [packb] and [unpackb]), the [VALIDATORS] registry
    and the [ERRORS] catalogue.

    The file has two parts.  The first one models the module and proves
    its properties for every library, registry and catalogue.  The second
    one gives a reference implementation of the MessagePack format that
    meets the contract, and a registry written after the design document,
    and runs each statement on concrete bytes. *)

From Stdlib Require Import ZArith Ascii String List Bool Lia.
From stdpp Require Import base option list gmap strings.

Local Open Scope Z_scope.

(** ** Python values *)

(** The objects that travel through the codec: what [msgpack] can serialise
    and what it hands back.  A [float] is given by the 64 bits of its
    IEEE 754 representation.  A dictionary is kept as the sequence of its
    bindings, oldest first (the [OrderedDict] of [_asdict], or the order of
    the entries of a wire map).  [unicode] objects are left out of the
    model. *)
#[local] Unset Elimination Schemes.
Inductive pyval : Type :=
| VNone
| VBool (b : bool)
| VInt (n : Z)
| VFloat (bits : Z)
| VStr (s : string)
| VList (l : list pyval)
| VTuple (l : list pyval)
| VDict (d : list (pyval * pyval)).
#[local] Set Elimination Schemes.

(** Structural induction through the nested lists. *)
Section pyval_induction.
Variable P : pyval -> Prop.
Hypothesis HNone : P VNone.
Hypothesis HBool : forall b, P (VBool b).
Hypothesis HInt : forall n, P (VInt n).
Hypothesis HFloat : forall bits, P (VFloat bits).
Hypothesis HStr : forall s, P (VStr s).
Hypothesis HList : forall l, Forall P l -> P (VList l).
Hypothesis HTuple : forall l, Forall P l -> P (VTuple l).
Hypothesis HDict :
  forall d, Forall (fun kv => P (fst kv) /\ P (snd kv)) d -> P (VDict d).

Fixpoint pyval_nested_ind (v : pyval) : P v :=
  match v with
  | VNone => HNone
  | VBool b => HBool b
  | VInt n => HInt n
  | VFloat bits => HFloat bits
  | VStr s => HStr s
  | VList l =>
      HList l ((fix go (l : list pyval) : Forall P l :=
                  match l with
                  | [] => List.Forall_nil _
                  | x :: l' => @List.Forall_cons _ P x l' (pyval_nested_ind x) (go l')
                  end) l)
  | VTuple l =>
      HTuple l ((fix go (l : list pyval) : Forall P l :=
                   match l with
                   | [] => List.Forall_nil _
                   | x :: l' => @List.Forall_cons _ P x l' (pyval_nested_ind x) (go l')
                   end) l)
  | VDict d =>
      HDict d ((fix go (d : list (pyval * pyval))
                  : Forall (fun kv => P (fst kv) /\ P (snd kv)) d :=
                  match d with
                  | [] => List.Forall_nil _
                  | (k, x) :: d' =>
                      @List.Forall_cons _ (fun kv => P (fst kv) /\ P (snd kv)) (k, x) d'
                        (conj (pyval_nested_ind k) (pyval_nested_ind x)) (go d')
                  end) d)
  end.
End pyval_induction.

(** [hash(v)] succeeds: lists and dictionaries are unhashable, a tuple is
    hashable when its elements are. *)
Fixpoint hashable (v : pyval) : bool :=
  match v with
  | VNone | VBool _ | VInt _ | VFloat _ | VStr _ => true
  | VTuple l => forallb hashable l
  | VList _ | VDict _ => false
  end.

(** What [unpackb] returns for the encoding of [v]: the wire format has one
    array type, which the decoder reads back as a list ([use_list=True]) or
    as a tuple ([use_list=False]). *)
Fixpoint seqify (use_list : bool) (v : pyval) : pyval :=
  match v with
  | VList l | VTuple l =>
      (if use_list then VList else VTuple) (map (seqify use_list) l)
  | VDict d =>
      VDict (map (fun kv => match kv with
                            | (k, x) => (seqify use_list k, seqify use_list x)
                            end) d)
  | _ => v
  end.

(** The [use_list=False] reading, the one [from_msgpack] asks for. *)
Definition tuplify : pyval -> pyval := seqify false.

(** *** Equality *)

(** The fields of a [float]: sign, biased exponent, fraction. *)
Definition float_sign (bits : Z) : Z := bits / 2 ^ 63.
Definition float_exponent (bits : Z) : Z := (bits / 2 ^ 52) mod 2 ^ 11.
Definition float_fraction (bits : Z) : Z := bits mod 2 ^ 52.

Definition is_nan (bits : Z) : bool :=
  (float_exponent bits =? 2047) && negb (float_fraction bits =? 0).

Definition is_inf (bits : Z) : bool :=
  (float_exponent bits =? 2047) && (float_fraction bits =? 0).

(** Numbers are compared by value, across [bool], [int] and [float]: a
    finite number is given by its value times [2^1074], an integer. *)
Inductive number : Type :=
| Finite (scaled : Z)
| Infinite (sign : Z)
| NaN.

Definition number_of_float (bits : Z) : number :=
  if is_nan bits then NaN
  else if is_inf bits then Infinite (float_sign bits)
  else
    let e := float_exponent bits in
    let significand :=
      if e =? 0 then float_fraction bits else 2 ^ 52 + float_fraction bits in
    let magnitude := significand * 2 ^ (Z.max e 1 - 1) in
    Finite (if float_sign bits =? 0 then magnitude else - magnitude).

Definition number_of (v : pyval) : option number :=
  match v with
  | VBool b => Some (Finite (Z.b2z b * 2 ^ 1074))
  | VInt n => Some (Finite (n * 2 ^ 1074))
  | VFloat bits => Some (number_of_float bits)
  | _ => None
  end.

(** [nan != nan] *)
Definition number_eq (a b : number) : bool :=
  match a, b with
  | Finite x, Finite y => x =? y
  | Infinite s, Infinite t => s =? t
  | _, _ => false
  end.

(** [v == w], for two objects that share no part (a decoded object and the
    one that was encoded): sequences are compared element by element, a
    list is never equal to a tuple, dictionaries are equal when they have
    as many bindings and each binding of the first has an equal one in the
    second. *)
Fixpoint py_eq (v w : pyval) {struct v} : bool :=
  match v, w with
  | VNone, VNone => true
  | VStr s, VStr t => String.eqb s t
  | VList l, VList l' | VTuple l, VTuple l' =>
      (fix go (l l' : list pyval) {struct l} : bool :=
         match l, l' with
         | [], [] => true
         | x :: l1, y :: l1' => py_eq x y && go l1 l1'
         | _, _ => false
         end) l l'
  | VDict d, VDict d' =>
      Nat.eqb (length d) (length d')
      && forallb (fun kv =>
                    match kv with
                    | (k, x) =>
                        existsb (fun kv' =>
                                   match kv' with
                                   | (k', x') => py_eq k k' && py_eq x x'
                                   end) d'
                    end) d
  | _, _ =>
      match number_of v, number_of w with
      | Some a, Some b => number_eq a b
      | _, _ => false
      end
  end.

(** No NaN anywhere inside. *)
Fixpoint nan_free (v : pyval) : bool :=
  match v with
  | VFloat bits => negb (is_nan bits)
  | VList l | VTuple l => forallb nan_free l
  | VDict d =>
      forallb (fun kv => match kv with
                         | (k, x) => nan_free k && nan_free x
                         end) d
  | _ => true
  end.

(** *** Dictionary access by a string key *)

(** [v == 'k'] for a string literal [k]: only the same byte string is
    equal to it. *)
Definition eq_str (v : pyval) (k : string) : bool :=
  match v with
  | VStr s => String.eqb s k
  | _ => false
  end.

(** [d[k]] / [k in d]: the binding of [k] that was set last. *)
Fixpoint dict_get (d : list (pyval * pyval)) (k : string) : option pyval :=
  match d with
  | [] => None
  | (k', x) :: d' =>
      match dict_get d' k with
      | Some y => Some y
      | None => if eq_str k' k then Some x else None
      end
  end.

(** [d[k] = x]: rebinds [k] where it stands, or appends a new binding. *)
Fixpoint dict_setitem (d : list (pyval * pyval)) (k : string) (x : pyval)
  : list (pyval * pyval) :=
  match d with
  | [] => [(VStr k, x)]
  | (k', y) :: d' =>
      if eq_str k' k then (k', x) :: d' else (k', y) :: dict_setitem d' k x
  end.

(** ** Exceptions *)

(** The exceptions of the module.  [ValueError code title details] is the
    [ValueError(code, title, details)] that the module itself raises.
    [UnpackError] and [PackException] stand for whatever escapes from the
    library: from [unpackb] a [ValueError] of its own (on bytes that are
    not one complete object; [ExtraData], on trailing bytes, is a subclass
    of it) or a [TypeError] (a map key that cannot be hashed), from [packb]
    an [OverflowError] or a [TypeError]. *)

Inductive exn : Type :=
| PackException                  (* raised inside [msgpack.packb] *)
| UnpackError                    (* raised inside [msgpack.unpackb] *)
| TypeError
| KeyError (key : pyval)
| ValueError (code : Z) (title : string) (details : gmap string string).


Inductive result (A : Type) : Type :=
| Return (a : A)
| Raise (e : exn).
Arguments Return {A} a.
Arguments Raise {A} e.

(** Sequencing: an exception raised by the first step ends the computation. *)
#[global] Instance result_bind : MBind result :=
  fun A B (f : A -> result B) (r : result A) =>
    match r with
    | Return a => f a
    | Raise e => Raise e
    end.

Definition lift {A} (e : exn) (o : option A) : result A :=
  match o with
  | Some a => Return a
  | None => Raise e
  end.

(** ** The contract of the [msgpack] library *)

(** A value the wire format has room for: 64-bit integers, lengths below
    [2^32], dictionary keys hashable (as those of every Python [dict]). *)
Fixpoint packable (v : pyval) : bool :=
  match v with
  | VNone | VBool _ => true
  | VInt n => (- 2 ^ 63 <=? n) && (n <? 2 ^ 64)
  | VFloat bits => (0 <=? bits) && (bits <? 2 ^ 64)
  | VStr s => Z.of_nat (String.length s) <? 2 ^ 32
  | VList l | VTuple l =>
      (Z.of_nat (length l) <? 2 ^ 32) && forallb packable l
  | VDict d =>
      (Z.of_nat (length d) <? 2 ^ 32)
      && forallb (fun kv => match kv with
                            | (k, x) => hashable k && packable k && packable x
                            end) d
  end.

Class MsgPack := {
  (** [msgpack.packb(v)]; [None] when it raises. *)
  packb : pyval -> option string;
  (** [msgpack.unpackb(raw, use_list=...)]; [None] when it raises. *)
  unpackb : bool -> string -> option pyval;
  packb_total : forall v, packable v = true -> is_Some (packb v);
  unpackb_packb :
    forall v raw, packable v = true -> packb v = Some raw ->
                  unpackb false raw = Some (tuplify v)
}.

(** ** The message classes *)

(** The eight [namedtuple] subclasses. *)
Inductive klass : Type :=
| Error | Ping | Pong | Store | FindNode | Nodes | FindValue | Value.

#[global] Instance klass_eq_dec : EqDecision klass.
Proof. solve_decision. Defined.

(** [klass.__name__] *)
Definition __name__ (k : klass) : string :=
  match k with
  | Error => "Error"
  | Ping => "Ping"
  | Pong => "Pong"
  | Store => "Store"
  | FindNode => "FindNode"
  | Nodes => "Nodes"
  | FindValue => "FindValue"
  | Value => "Value"
  end.

(** [klass._fields]: the field names in declaration order. *)
Definition _fields (k : klass) : list string :=
  match k with
  | Error => ["uuid"; "node"; "code"; "title"; "details"; "version"]
  | Ping | Pong => ["uuid"; "node"; "version"]
  | Store | Value =>
      ["uuid"; "node"; "key"; "value"; "timestamp"; "expires"; "public_key";
       "name"; "meta"; "sig"; "version"]
  | FindNode | FindValue => ["uuid"; "node"; "key"; "version"]
  | Nodes => ["uuid"; "node"; "nodes"; "version"]
  end.

(** An instance of a message class: the class and the tuple of its field
    values. *)
Record msg : Type := Msg { msg_class : klass; msg_args : list pyval }.

(** [m1 == m2]: a [namedtuple] instance is compared as the tuple of its
    values. *)
Definition py_eq_msg (m1 m2 : msg) : bool :=
  py_eq (VTuple (msg_args m1)) (VTuple (msg_args m2)).

(** Every instance Python can build has one value per declared field. *)
Definition wf_msg (m : msg) : Prop :=
  length (msg_args m) = length (_fields (msg_class m)).

(** [klass( *args )]: the constructor takes exactly one argument per field. *)
Definition new (k : klass) (args : list pyval) : result msg :=
  if decide (length args = length (_fields k)) then Return (Msg k args)
  else Raise TypeError.

(** [message._asdict()]: [OrderedDict(zip(self._fields, self))]. *)
Definition _asdict (m : msg) : list (pyval * pyval) :=
  zip (map VStr (_fields (msg_class m))) (msg_args m).

(** [str.lower()] on a byte string. *)
Definition lower_ascii (c : ascii) : ascii :=
  let n := N_of_ascii c in
  if ((65 <=? n) && (n <=? 90))%N then ascii_of_N (n + 32) else c.

Fixpoint lower (s : string) : string :=
  match s with
  | EmptyString => EmptyString
  | String c s' => String (lower_ascii c) (lower s')
  end.

(** *** Vocabulary of the statements *)

(** The wire tag of a class, as [to_msgpack] computes it. *)
Definition tag (k : klass) : string := lower (__name__ k).

(** The string literals [from_msgpack] compares the tag with. *)
Definition known_tags : list string :=
  ["error"; "ping"; "pong"; "store"; "findnode"; "nodes"; "findvalue";
   "value"].

(** The dictionary [to_msgpack] hands to [packb]: one entry per field, in
    the order of the fields, then the ['message'] entry. *)
Definition wire_map (m : msg) : list (pyval * pyval) :=
  zip (map VStr (_fields (msg_class m))) (msg_args m)
  ++ [(VStr "message", VStr (tag (msg_class m)))].

(** No list anywhere inside: the shape of what [use_list=False] returns. *)
Fixpoint tuple_only (v : pyval) : bool :=
  match v with
  | VList _ => false
  | VTuple l => forallb tuple_only l
  | VDict d =>
      forallb (fun kv => match kv with
                         | (k, x) => tuple_only k && tuple_only x
                         end) d
  | _ => true
  end.

(** A message as it comes back from the wire: every list in its field
    values has become a tuple. *)
Definition tuplify_msg (m : msg) : msg :=
  Msg (msg_class m) (map tuplify (msg_args m)).

Section Messages.

Context `{msgpack : MsgPack}.
(** [validators.VALIDATORS]: field name to predicate.  The predicates are
    total: on any decoded value they answer [True] or [False]. *)
Variable VALIDATORS : gmap string (pyval -> bool).
(** [drogulus.constants.ERRORS]: error code to text. *)
Variable ERRORS : gmap Z string.
(** The builtin [str()] on objects other than byte strings. *)
Variable py_str : pyval -> string.

Definition to_msgpack (message : msg) : result string :=
  let name := lower (__name__ (msg_class message)) in
  let data := _asdict message in
  let data := dict_setitem data "message" (VStr name) in
  lift PackException (packb (VDict data)).

(** The state of the loop of [make_message]: [args] and [errors]. *)
Definition loop_state : Type := list pyval * gmap string string.

(** One iteration of [for field in fields]. *)
Definition check_field (data : list (pyval * pyval)) (st : loop_state)
  (field : string) : result loop_state :=
  match dict_get data field with
  | None => Return (fst st, <[field := "Missing field."]> (snd st))
  | Some value =>
      validator ← lift (KeyError (VStr field)) (VALIDATORS !! field);
      if negb (validator value)
      then Return (fst st, <[field := "Invalid value."]> (snd st))
      else Return (fst st ++ [value], snd st)
  end.

Fixpoint check_fields (data : list (pyval * pyval)) (fields : list string)
  (st : loop_state) : result loop_state :=
  match fields with
  | [] => Return st
  | field :: fields' =>
      st' ← check_field data st field;
      check_fields data fields' st'
  end.

(** [make_message(klass, data)].  [from_msgpack] only calls it once
    [data['message']] has succeeded, that is with a dictionary, given here
    by its bindings. *)
Definition make_message (k : klass) (data : list (pyval * pyval))
  : result msg :=
  let fields := _fields k in
  st ← check_fields data fields ([], ∅);
  let args := fst st in
  let errors := snd st in
  if decide (errors = ∅) then new k args
  else
    title ← lift (KeyError (VInt 2)) (ERRORS !! 2);
    Raise (ValueError 2 title errors).

(** [str(v)]: a byte string is its own [str]. *)
Definition str (v : pyval) : string :=
  match v with
  | VStr s => s
  | _ => py_str v
  end.

(** ['%s is not a valid message type.' % message]: a tuple on the right of
    [%] is the argument list of the format, and must hold one object. *)
Definition format_context (message : pyval) : result string :=
  match message with
  | VTuple [x] => Return (str x +:+ " is not a valid message type.")
  | VTuple _ => Raise TypeError
  | _ => Return (str message +:+ " is not a valid message type.")
  end.

Definition from_msgpack (raw : string) : result msg :=
  data ← lift UnpackError (unpackb false raw);
  match data with
  | VDict d =>
      message ← lift (KeyError (VStr "message")) (dict_get d "message");
      if eq_str message "error" then make_message Error d
      else if eq_str message "ping" then make_message Ping d
      else if eq_str message "pong" then make_message Pong d
      else if eq_str message "store" then make_message Store d
      else if eq_str message "findnode" then make_message FindNode d
      else if eq_str message "nodes" then make_message Nodes d
      else if eq_str message "findvalue" then make_message FindValue d
      else if eq_str message "value" then make_message Value d
      else
        title ← lift (KeyError (VInt 2)) (ERRORS !! 2);
        context ← format_context message;
        Raise (ValueError 2 title {[ "context" := context ]})
  | _ => Raise TypeError
  end.

(** *** What the loop of [make_message] computes *)

(** The registered validator of [field] accepts [value]. *)
Definition accepts (field : string) (value : pyval) : bool :=
  match VALIDATORS !! field with
  | Some validator => validator value
  | None => false
  end.

(** Every field of the list has a validator in the registry. *)
Definition registered (fields : list string) : Prop :=
  forall field, field ∈ fields -> is_Some (VALIDATORS !! field).

Definition is_missing (data : list (pyval * pyval)) (field : string) : bool :=
  match dict_get data field with
  | None => true
  | Some _ => false
  end.

Definition is_invalid (data : list (pyval * pyval)) (field : string) : bool :=
  match dict_get data field with
  | None => false
  | Some value => negb (accepts field value)
  end.

(** The entry the loop writes into [errors] for [field], if any. *)
Definition report (data : list (pyval * pyval)) (field : string)
  : option string :=
  if is_missing data field then Some "Missing field."
  else if is_invalid data field then Some "Invalid value."
  else None.

Definition record (data : list (pyval * pyval))
  (errors : gmap string string) (field : string) : gmap string string :=
  match report data field with
  | Some why => <[field := why]> errors
  | None => errors
  end.

(** The values the loop appends to [args]. *)
Definition staged (data : list (pyval * pyval)) (fields : list string)
  : list pyval :=
  omap (fun field =>
          match dict_get data field with
          | Some value => if accepts field value then Some value else None
          | None => None
          end) fields.

(** A message whose field values pass their validators. *)
Fixpoint valid_args (fields : list string) (args : list pyval) : bool :=
  match fields, args with
  | [], [] => true
  | field :: fields', value :: args' =>
      accepts field value && valid_args fields' args'
  | _, _ => false
  end.

Definition valid_msg (m : msg) : bool :=
  valid_args (_fields (msg_class m)) (msg_args m).

(** ** Properties *)

Lemma bind_Return {A B} (a : A) (f : A -> result B) : (Return a ≫= f) = f a.
Proof. done. Qed.

Lemma accepts_registered (field : string) (value : pyval) :
  accepts field value = true -> is_Some (VALIDATORS !! field).
Proof. unfold accepts. destruct (VALIDATORS !! field); [eauto|done]. Qed.

Lemma report_None (data : list (pyval * pyval)) (field : string) :
  report data field = None
  <-> exists value, dict_get data field = Some value
                    /\ accepts field value = true.
Proof.
  unfold report, is_missing, is_invalid.
  destruct (dict_get data field) as [value|]; simpl.
  - destruct (accepts field value) eqn:Hacc; simpl; split; try done.
    + eauto.
    + intros (? & [= <-] & ?). congruence.
  - split; [done|]. by intros (? & ? & _).
Qed.

(** One iteration, when it does not raise. *)
Lemma check_field_inv (data : list (pyval * pyval)) (st st' : loop_state)
  (field : string) :
  check_field data st field = Return st' ->
  st' = (st.1 ++ staged data [field], record data st.2 field)
  /\ (is_missing data field = false -> is_Some (VALIDATORS !! field)).
Proof.
  unfold check_field, staged, record, report, is_missing, is_invalid, accepts.
  simpl. destruct (dict_get data field) as [value|]; simpl.
  - destruct (VALIDATORS !! field) as [validator|]; simpl; [|done].
    destruct (validator value); simpl; intros [= <-].
    + eauto.
    + rewrite app_nil_r. eauto.
  - intros [= <-]. rewrite app_nil_r. by split.
Qed.

Lemma check_field_run (data : list (pyval * pyval)) (st : loop_state)
  (field : string) :
  (is_missing data field = false -> is_Some (VALIDATORS !! field)) ->
  check_field data st field
  = Return (st.1 ++ staged data [field], record data st.2 field).
Proof.
  unfold check_field, staged, record, report, is_missing, is_invalid, accepts.
  simpl. destruct (dict_get data field) as [value|]; simpl.
  - intros [validator ->]; [done|]. simpl.
    destruct (validator value); simpl; [done|].
    by rewrite app_nil_r.
  - intros _. by rewrite app_nil_r.
Qed.

Lemma staged_cons (data : list (pyval * pyval)) (field : string)
  (fields : list string) :
  staged data (field :: fields) = staged data [field] ++ staged data fields.
Proof. unfold staged. simpl. by case_match; [case_match|]. Qed.

(** The whole loop, when it does not raise. *)
Lemma check_fields_inv (data : list (pyval * pyval)) (fields : list string)
  (st st' : loop_state) :
  check_fields data fields st = Return st' ->
  st' = (st.1 ++ staged data fields, foldl (record data) st.2 fields)
  /\ (forall field, field ∈ fields -> is_missing data field = false ->
                    is_Some (VALIDATORS !! field)).
Proof.
  revert st. induction fields as [|field fields IH]; intros st;
    cbn [check_fields].
  - intros [= <-]. unfold staged. simpl. rewrite app_nil_r.
    split; [by destruct st|]. by intros ? ?%elem_of_nil.
  - destruct (check_field data st field) as [st1|e] eqn:Hstep; [|done].
    rewrite bind_Return. intros Hrest.
    apply check_field_inv in Hstep as [-> Hreg].
    apply IH in Hrest as [-> Hregs]. cbn [fst snd foldl].
    rewrite (staged_cons data field fields), app_assoc. split; [done|].
    intros f [->|Hf]%elem_of_cons; auto.
Qed.

Lemma check_fields_run (data : list (pyval * pyval)) (fields : list string)
  (st : loop_state) :
  (forall field, field ∈ fields -> is_missing data field = false ->
                 is_Some (VALIDATORS !! field)) ->
  check_fields data fields st
  = Return (st.1 ++ staged data fields, foldl (record data) st.2 fields).
Proof.
  revert st. induction fields as [|field fields IH]; intros st Hreg;
    cbn [check_fields].
  - unfold staged. simpl. rewrite app_nil_r. by destruct st.
  - rewrite check_field_run by (apply Hreg; left).
    rewrite bind_Return, IH by (intros; apply Hreg; [by right|done]).
    cbn [fst snd foldl].
    by rewrite (staged_cons data field fields), app_assoc.
Qed.

Lemma record_lookup (data : list (pyval * pyval))
  (errors : gmap string string) (f field : string) :
  record data errors f !! field
  = match (if decide (field = f) then report data field else None) with
    | Some why => Some why
    | None => errors !! field
    end.
Proof.
  unfold record. destruct (decide (field = f)) as [->|Hne].
  - destruct (report data f); [|done]. by rewrite lookup_insert_eq.
  - destruct (report data f); [|done]. by rewrite lookup_insert_ne.
Qed.

(** The entries of [errors] once the loop is over. *)
Lemma errors_lookup (data : list (pyval * pyval)) (fields : list string)
  (errors : gmap string string) (field : string) :
  foldl (record data) errors fields !! field
  = match (if bool_decide (field ∈ fields) then report data field else None)
    with
    | Some why => Some why
    | None => errors !! field
    end.
Proof.
  revert errors. induction fields as [|f fields IH]; intros errors; simpl.
  - done.
  - rewrite IH, record_lookup.
    destruct (decide (field = f)) as [->|Hne].
    + rewrite (bool_decide_eq_true_2 (f ∈ f :: fields)) by by left.
      case_bool_decide; by destruct (report data f).
    + destruct (decide (field ∈ fields)) as [Hin|Hin].
      * by rewrite !bool_decide_eq_true_2 by (done || by right).
      * by rewrite !bool_decide_eq_false_2
          by (done || by intros [->|?]%elem_of_cons).
Qed.

Lemma errors_empty (data : list (pyval * pyval)) (fields : list string) :
  foldl (record data) ∅ fields = ∅
  <-> forall field, field ∈ fields -> report data field = None.
Proof.
  split.
  - intros Hempty field Hin.
    pose proof (errors_lookup data fields ∅ field) as Hl.
    rewrite Hempty, lookup_empty, bool_decide_eq_true_2 in Hl by done.
    by destruct (report data field).
  - intros Hnone. apply map_eq. intros field.
    rewrite errors_lookup, lookup_empty.
    case_bool_decide; [by rewrite Hnone|done].
Qed.

(** How many entries [errors] has: one for each field with a report. *)
Lemma errors_size (data : list (pyval * pyval)) (fields : list string)
  (errors : gmap string string) :
  NoDup fields ->
  (forall field, field ∈ fields -> errors !! field = None) ->
  size (foldl (record data) errors fields)
  = (size errors
     + length (List.filter (fun f => is_missing data f) fields)
     + length (List.filter (fun f => is_invalid data f) fields))%nat.
Proof.
  intros Hnodup. revert errors.
  induction Hnodup as [|f fields Hnotin _ IH]; intros errors Hfresh; simpl.
  - lia.
  - assert (Hf : errors !! f = None) by (apply Hfresh; left).
    assert (Hrest : forall why field, field ∈ fields ->
                                      <[f := why]> errors !! field = None).
    { intros why field Hin. rewrite lookup_insert_ne by (by intros ->).
      apply Hfresh. by right. }
    assert (Hexcl : is_missing data f = true -> is_invalid data f = false).
    { unfold is_missing, is_invalid. by destruct (dict_get data f). }
    unfold record at 2, report.
    destruct (is_missing data f) eqn:Hm; [rewrite Hexcl by done|];
      [|destruct (is_invalid data f) eqn:Hi];
      rewrite IH by (by apply Hrest || (intros; apply Hfresh; by right));
      rewrite ?map_size_insert_None by done; cbn [length]; lia.
Qed.

Lemma fields_NoDup (k : klass) : NoDup (_fields k).
Proof. destruct k; by apply (bool_decide_unpack _). Qed.

Lemma message_not_a_field (k : klass) : "message" ∉ _fields k.
Proof. destruct k; by apply (bool_decide_unpack _). Qed.

(** The literals of the chain are the tags of the eight classes. *)
Lemma known_tags_spec :
  map tag [Error; Ping; Pong; Store; FindNode; Nodes; FindValue; Value]
  = known_tags.
Proof. reflexivity. Qed.

(** [make_message] in one piece, when the lookups in [VALIDATORS] succeed. *)
Lemma make_message_run (k : klass) (data : list (pyval * pyval)) :
  (forall field, field ∈ _fields k -> is_missing data field = false ->
                 is_Some (VALIDATORS !! field)) ->
  make_message k data
  = let errors := foldl (record data) ∅ (_fields k) in
    if decide (errors = ∅) then new k (staged data (_fields k))
    else title ← lift (KeyError (VInt 2)) (ERRORS !! 2);
         Raise (ValueError 2 title errors).
Proof.
  intros Hreg. unfold make_message.
  by rewrite (check_fields_run _ _ _ Hreg), bind_Return.
Qed.

(** The tag of a class selects that class in the chain of comparisons. *)
Lemma from_msgpack_known (raw : string) (d : list (pyval * pyval))
  (k : klass) :
  unpackb false raw = Some (VDict d) ->
  dict_get d "message" = Some (VStr (tag k)) ->
  from_msgpack raw = make_message k d.
Proof.
  intros Hraw Htag. unfold from_msgpack.
  rewrite Hraw. cbn [lift]. rewrite bind_Return, Htag. cbn [lift].
  rewrite bind_Return. by destruct k.
Qed.

(** A string that is none of the eight literals falls through the chain. *)
Lemma from_msgpack_unknown (raw : string) (d : list (pyval * pyval))
  (t title : string) :
  unpackb false raw = Some (VDict d) ->
  dict_get d "message" = Some (VStr t) ->
  t ∉ known_tags ->
  ERRORS !! 2 = Some title ->
  from_msgpack raw
  = Raise (ValueError 2 title
             {[ "context" := t +:+ " is not a valid message type." ]}).
Proof.
  intros Hraw Htag Hnew Htitle. unfold from_msgpack.
  rewrite Hraw. cbn [lift]. rewrite bind_Return, Htag. cbn [lift].
  rewrite bind_Return. cbn [eq_str].
  repeat match goal with
         | |- context [String.eqb t ?lit] =>
             rewrite (proj2 (String.eqb_neq t lit))
               by (intros ->; apply Hnew; unfold known_tags; set_solver)
         end.
  by rewrite Htitle.
Qed.

(** When no field has a report, [args] holds the value of every field,
    in the order of the fields. *)
Lemma staged_accepted (data : list (pyval * pyval)) (fields : list string) :
  (forall field, field ∈ fields -> report data field = None) ->
  Forall2 (fun field value =>
             dict_get data field = Some value /\ accepts field value = true)
    fields (staged data fields).
Proof.
  induction fields as [|f fields IH]; intros Hnone.
  - constructor.
  - destruct (proj1 (report_None data f)) as (value & Hget & Hacc);
      [apply Hnone; by left|].
    rewrite staged_cons. unfold staged at 1. simpl. rewrite Hget, Hacc. simpl.
    constructor; [done|]. apply IH. intros; apply Hnone; by right.
Qed.

Lemma accepted_staged (data : list (pyval * pyval)) (fields : list string)
  (args : list pyval) :
  Forall2 (fun field value =>
             dict_get data field = Some value /\ accepts field value = true)
    fields args ->
  staged data fields = args.
Proof.
  induction 1 as [|f value fields args [Hget Hacc] _ IH]; [done|].
  rewrite staged_cons. unfold staged at 1. simpl.
  by rewrite Hget, Hacc, IH.
Qed.

(** Every declared field present and accepted: the message is built. *)
Lemma make_message_accepts (k : klass) (data : list (pyval * pyval))
  (args : list pyval) :
  Forall2 (fun field value =>
             dict_get data field = Some value /\ accepts field value = true)
    (_fields k) args ->
  make_message k data = Return (Msg k args).
Proof.
  intros Hall.
  assert (Hnone : forall field, field ∈ _fields k ->
                                report data field = None).
  { intros field Hin. apply report_None.
    apply list_elem_of_lookup in Hin as [i Hi].
    destruct (Forall2_lookup_l _ _ _ _ _ Hall Hi) as (value & _ & ?).
    eauto. }
  rewrite make_message_run.
  - cbn zeta. rewrite decide_True by by apply errors_empty.
    rewrite (accepted_staged _ _ _ Hall). unfold new.
    by rewrite decide_True by (symmetry; eapply Forall2_length, Hall).
  - intros field Hin _.
    destruct (proj1 (report_None data field) (Hnone field Hin))
      as (value & _ & Hacc).
    by eapply accepts_registered.
Qed.

(** C10 -- constructed-message invariant: [make_message] returns a message
    exactly when every declared field of the class is present in the input
    map and accepted by its registered validator (no error was recorded),
    and the message it returns is the class applied to the map's values for
    those fields, in the declared field order. *)
Theorem make_message_returns_iff (k : klass) (data : list (pyval * pyval))
  (m : msg) :
  make_message k data = Return m
  <-> msg_class m = k
      /\ Forall2 (fun field value =>
                    dict_get data field = Some value
                    /\ accepts field value = true)
           (_fields k) (msg_args m).
Proof.
  split.
  - unfold make_message.
    destruct (check_fields data (_fields k) ([], ∅)) as [st|e] eqn:Hloop;
      [|done].
    apply check_fields_inv in Hloop as [-> _].
    rewrite bind_Return. cbn [fst snd app].
    destruct (decide (foldl (record data) ∅ (_fields k) = ∅)) as [Hnone|_].
    + unfold new. case_decide; [|done]. intros [= <-]. simpl.
      split; [done|]. by apply staged_accepted, errors_empty.
    + by destruct (ERRORS !! 2).
  - destruct m as [k' args]. simpl. intros [-> Hall].
    by apply make_message_accepts.
Qed.

(** C3 -- closed tag set: a map whose ['message'] entry is a string other
    than the eight known tags makes [from_msgpack] raise
    [ValueError(2, ERRORS[2], {'context': '<tag> is not a valid message
    type.'})], the failure that names the offending tag; no other exception
    escapes. *)
Theorem unknown_tag_raises (raw : string) (d : list (pyval * pyval))
  (t title : string) :
  unpackb false raw = Some (VDict d) ->
  dict_get d "message" = Some (VStr t) ->
  t ∉ known_tags ->
  ERRORS !! 2 = Some title ->
  from_msgpack raw
  = Raise (ValueError 2 title
             {[ "context" := t +:+ " is not a valid message type." ]}).
Proof. apply from_msgpack_unknown. Qed.

(** C9 -- exact, case-sensitive tags: a ['message'] entry that differs from
    a known tag only in the case of its letters (['Ping'], ['PING']) is not
    dispatched to that class; it is reported as an unknown message type. *)
Theorem tag_match_is_case_sensitive (raw : string)
  (d : list (pyval * pyval)) (k : klass) (t title : string) :
  unpackb false raw = Some (VDict d) ->
  dict_get d "message" = Some (VStr t) ->
  lower t = tag k ->
  t <> tag k ->
  ERRORS !! 2 = Some title ->
  from_msgpack raw
  = Raise (ValueError 2 title
             {[ "context" := t +:+ " is not a valid message type." ]}).
Proof.
  intros Hraw Htag Hlow Hne Htitle.
  apply (from_msgpack_unknown raw d t title); try done.
  intros Hin. apply Hne. rewrite <- Hlow.
  unfold known_tags in Hin.
  repeat (apply elem_of_cons in Hin as [->|Hin]; [reflexivity|]).
  by apply elem_of_nil in Hin.
Qed.

Lemma elem_of_filter_bool (p : string -> bool) (l : list string) (x : string) :
  x ∈ List.filter p l <-> x ∈ l /\ p x = true.
Proof. rewrite !list_elem_of_In. apply filter_In. Qed.

Lemma report_missing (data : list (pyval * pyval)) (field : string) :
  report data field = Some "Missing field." <-> is_missing data field = true.
Proof.
  unfold report. destruct (is_missing data field); [done|].
  by destruct (is_invalid data field).
Qed.

Lemma report_invalid (data : list (pyval * pyval)) (field : string) :
  report data field = Some "Invalid value." <-> is_invalid data field = true.
Proof.
  unfold report, is_missing, is_invalid.
  destruct (dict_get data field) as [value|]; [|done].
  by destruct (accepts field value).
Qed.

Lemma errors_lookup_empty (data : list (pyval * pyval))
  (fields : list string) (field why : string) :
  foldl (record data) ∅ fields !! field = Some why
  <-> field ∈ fields /\ report data field = Some why.
Proof.
  rewrite errors_lookup, lookup_empty.
  case_bool_decide as Hin.
  - destruct (report data field); split; try done.
    + by intros [_ ?].
    + by intros [_ ?].
  - split; [done|]. by intros [? _].
Qed.

(** C2 -- aggregate validation: for a map with the tag of a known class,
    the loop goes through the whole field sequence and the [ValueError] it
    raises carries one entry per problematic field: ['Missing field.'] for
    each declared field the map lacks, ['Invalid value.'] for each one its
    validator rejects, and nothing else.  With two fields missing and one
    rejected the report has exactly three entries. *)
Theorem every_field_error_reported (raw : string) (d : list (pyval * pyval))
  (k : klass) (title : string) :
  unpackb false raw = Some (VDict d) ->
  dict_get d "message" = Some (VStr (tag k)) ->
  registered (_fields k) ->
  ERRORS !! 2 = Some title ->
  let missing := List.filter (is_missing d) (_fields k) in
  let invalid := List.filter (is_invalid d) (_fields k) in
  missing ++ invalid <> [] ->
  exists errors,
    from_msgpack raw = Raise (ValueError 2 title errors)
    /\ size errors = (length missing + length invalid)%nat
    /\ (forall field,
          errors !! field = Some "Missing field." <-> field ∈ missing)
    /\ (forall field,
          errors !! field = Some "Invalid value." <-> field ∈ invalid).
Proof.
  intros Hraw Htag Hreg Htitle missing invalid Hsome.
  rewrite (from_msgpack_known raw d k Hraw Htag).
  rewrite make_message_run by (intros; by apply Hreg). cbn zeta.
  set (errors := foldl (record d) ∅ (_fields k)).
  assert (Hsize : size errors = (length missing + length invalid)%nat).
  { unfold errors. rewrite errors_size.
    - by rewrite map_size_empty.
    - apply fields_NoDup.
    - intros. apply lookup_empty. }
  destruct (decide (errors = ∅)) as [Hempty|_].
  - rewrite Hempty, map_size_empty in Hsize.
    destruct missing, invalid; simpl in *; done || lia.
  - rewrite Htitle. cbn [lift]. rewrite bind_Return.
    exists errors. repeat split; try done; unfold errors.
    + intros [? ?%report_missing]%errors_lookup_empty.
      by apply elem_of_filter_bool.
    + intros [? ?%report_missing]%elem_of_filter_bool.
      by apply errors_lookup_empty.
    + intros [? ?%report_invalid]%errors_lookup_empty.
      by apply elem_of_filter_bool.
    + intros [? ?%report_invalid]%elem_of_filter_bool.
      by apply errors_lookup_empty.
Qed.

(** The loop reads [data] through the declared fields only. *)
Lemma check_fields_ext (data data' : list (pyval * pyval))
  (fields : list string) (st : loop_state) :
  (forall field, field ∈ fields -> dict_get data' field = dict_get data field) ->
  check_fields data' fields st = check_fields data fields st.
Proof.
  revert st. induction fields as [|f fields IH]; intros st Hsame; [done|].
  cbn [check_fields].
  assert (Hstep : check_field data' st f = check_field data st f).
  { unfold check_field. by rewrite (Hsame f) by by left. }
  rewrite Hstep. destruct (check_field data st f) as [st'|e]; [|done].
  rewrite !bind_Return. apply IH. intros; apply Hsame; by right.
Qed.

Lemma make_message_ext (k : klass) (data data' : list (pyval * pyval)) :
  (forall field, field ∈ _fields k ->
                 dict_get data' field = dict_get data field) ->
  make_message k data' = make_message k data.
Proof.
  intros Hsame. unfold make_message. by rewrite (check_fields_ext data data').
Qed.

(** C5 (as the code has it) -- for a map with the tag of a known class,
    omitting a declared field fails validation, that field being reported
    as missing; entries beyond the declared fields are not looked at: two
    maps with the same tag that agree on the declared fields decode to the
    same result. *)
Theorem declared_fields_decide (raw : string) (d : list (pyval * pyval))
  (k : klass) :
  unpackb false raw = Some (VDict d) ->
  dict_get d "message" = Some (VStr (tag k)) ->
  (forall field title,
     registered (_fields k) -> ERRORS !! 2 = Some title ->
     field ∈ _fields k -> dict_get d field = None ->
     exists errors,
       from_msgpack raw = Raise (ValueError 2 title errors)
       /\ errors !! field = Some "Missing field.")
  /\ (forall raw' d',
        unpackb false raw' = Some (VDict d') ->
        dict_get d' "message" = Some (VStr (tag k)) ->
        (forall field, field ∈ _fields k ->
                       dict_get d' field = dict_get d field) ->
        from_msgpack raw' = from_msgpack raw).
Proof.
  intros Hraw Htag. split.
  - intros field title Hreg Htitle Hin Hnone.
    rewrite (from_msgpack_known raw d k Hraw Htag).
    rewrite make_message_run by (intros; by apply Hreg). cbn zeta.
    assert (Hfield : foldl (record d) ∅ (_fields k) !! field
                     = Some "Missing field.").
    { apply errors_lookup_empty. split; [done|].
      apply report_missing. unfold is_missing. by rewrite Hnone. }
    rewrite decide_False by (intros Hempty; by rewrite Hempty in Hfield).
    rewrite Htitle. cbn [lift]. rewrite bind_Return. eauto.
  - intros raw' d' Hraw' Htag' Hsame.
    rewrite (from_msgpack_known raw d k Hraw Htag).
    rewrite (from_msgpack_known raw' d' k Hraw' Htag').
    by apply make_message_ext.
Qed.

(** *** Dictionaries built by [_asdict] *)

Lemma dict_get_None (d : list (pyval * pyval)) (k : string) :
  Forall (fun kv => eq_str kv.1 k = false) d -> dict_get d k = None.
Proof.
  induction 1 as [|[k' x] d Hk _ IH]; simpl in *; [done|].
  by rewrite IH, Hk.
Qed.

Lemma dict_get_app (d1 d2 : list (pyval * pyval)) (k : string) :
  dict_get (d1 ++ d2) k
  = match dict_get d2 k with
    | Some x => Some x
    | None => dict_get d1 k
    end.
Proof.
  induction d1 as [|[k' x] d1 IH]; simpl.
  - by destruct (dict_get d2 k).
  - rewrite IH. by destruct (dict_get d2 k).
Qed.

Lemma dict_setitem_fresh (d : list (pyval * pyval)) (k : string) (x : pyval) :
  Forall (fun kv => eq_str kv.1 k = false) d ->
  dict_setitem d k x = d ++ [(VStr k, x)].
Proof.
  induction 1 as [|[k' y] d Hk _ IH]; simpl in *; [done|].
  by rewrite Hk, IH.
Qed.

Lemma zip_keys_other (fields : list string) (args : list pyval) (k : string) :
  k ∉ fields ->
  Forall (fun kv => eq_str kv.1 k = false) (zip (map VStr fields) args).
Proof.
  revert args. induction fields as [|f fields IH]; intros args Hk; simpl.
  - constructor.
  - destruct args as [|x args]; constructor.
    + simpl. apply String.eqb_neq. intros ->. apply Hk. by left.
    + apply IH. intros ?. apply Hk. by right.
Qed.

Lemma dict_get_zip (fields : list string) (args : list pyval)
  (tail : list (pyval * pyval)) :
  NoDup fields -> length fields = length args ->
  Forall (fun field => dict_get tail field = None) fields ->
  Forall2 (fun field value =>
             dict_get (zip (map VStr fields) args ++ tail) field = Some value)
    fields args.
Proof.
  intros Hnodup. revert args.
  induction Hnodup as [|f fields Hf _ IH]; intros [|x args] Hlen Htail;
    try done; try by constructor.
  apply Forall_cons in Htail as [Hhead Htail].
  simpl. constructor.
  - rewrite dict_get_app, Hhead.
    rewrite (dict_get_None _ f) by by apply zip_keys_other.
    simpl. by rewrite String.eqb_refl.
  - eapply Forall2_impl; [apply IH; [by injection Hlen|done]|].
    simpl. by intros g y ->.
Qed.

Lemma to_msgpack_data (m : msg) :
  to_msgpack m = lift PackException (packb (VDict (wire_map m))).
Proof.
  unfold to_msgpack, wire_map, _asdict, tag.
  by rewrite dict_setitem_fresh
    by apply zip_keys_other, message_not_a_field.
Qed.

Lemma wire_map_message (m : msg) :
  dict_get (wire_map m) "message" = Some (VStr (tag (msg_class m))).
Proof. unfold wire_map. by rewrite dict_get_app. Qed.

Lemma wire_map_fields (m : msg) :
  wf_msg m ->
  Forall2 (fun field value => dict_get (wire_map m) field = Some value)
    (_fields (msg_class m)) (msg_args m).
Proof.
  intros Hwf. unfold wire_map.
  apply dict_get_zip; [apply fields_NoDup|by symmetry|].
  apply Forall_forall. intros field Hin. cbn [dict_get eq_str].
  rewrite (proj2 (String.eqb_neq "message" field)); [done|].
  intros <-. by apply (message_not_a_field (msg_class m)).
Qed.

Lemma field_name_short (k : klass) (field : string) :
  field ∈ _fields k -> (String.length field < 16)%nat.
Proof.
  intros Hin.
  destruct k; simpl in Hin;
    repeat (apply elem_of_cons in Hin as [->|Hin]; [simpl; lia|]);
    by apply elem_of_nil in Hin.
Qed.

Lemma length_fields (k : klass) : (length (_fields k) <= 11)%nat.
Proof. destruct k; simpl; lia. Qed.

Lemma tag_known (k : klass) : tag k ∈ known_tags.
Proof. destruct k; by apply (bool_decide_unpack _). Qed.

Lemma wire_map_packable (m : msg) :
  forallb packable (msg_args m) = true ->
  packable (VDict (wire_map m)) = true.
Proof.
  intros Hargs. cbn [packable]. apply andb_true_iff. split.
  - apply Z.ltb_lt. unfold wire_map.
    rewrite length_app, length_zip, length_map. simpl.
    pose proof (length_fields (msg_class m)). lia.
  - apply forallb_forall. intros [key value] Hin.
    apply list_elem_of_In in Hin. unfold wire_map in Hin.
    apply elem_of_app in Hin as [Hin|Hin].
    + pose proof (elem_of_zip_l _ _ _ _ Hin) as Hkey.
      pose proof (elem_of_zip_r _ _ _ _ Hin) as Hvalue.
      apply list_elem_of_fmap in Hkey as (field & -> & Hfield).
      apply field_name_short in Hfield. simpl.
      rewrite (proj2 (Z.ltb_lt _ _)) by lia. simpl.
      rewrite forallb_forall in Hargs. by apply Hargs, list_elem_of_In.
    + apply list_elem_of_singleton in Hin as [= -> ->].
      by destruct (msg_class m).
Qed.

Lemma tuple_only_tuplify (v : pyval) : tuple_only v = true -> tuplify v = v.
Proof.
  unfold tuplify.
  induction v as [| | | | |l IH|l IH|d IH] using pyval_nested_ind;
    simpl; try done; intros Hall; f_equal.
  - induction IH as [|x l Hx _ IHl]; simpl in *; [done|].
    apply andb_true_iff in Hall as [??]. f_equal; auto.
  - induction IH as [|[k x] d [Hk Hx] _ IHd]; simpl in *; [done|].
    apply andb_true_iff in Hall as [[??]%andb_true_iff ?].
    repeat f_equal; auto.
Qed.

Lemma valid_args_Forall2 (fields : list string) (args : list pyval) :
  valid_args fields args = true
  <-> Forall2 (fun field value => accepts field value = true) fields args.
Proof.
  revert args. induction fields as [|f fields IH]; intros [|x args]; simpl.
  - split; [constructor|done].
  - split; [done|]. intros Hall. inversion Hall.
  - split; [done|]. intros Hall. inversion Hall.
  - rewrite andb_true_iff, IH. split.
    + intros [??]. by constructor.
    + intros Hall. inversion Hall. by subst.
Qed.

(** C6 (as the code has it) -- shape of the encoding: for a message with one
    serialisable value per declared field, [to_msgpack] succeeds, and what
    it serialises is a single dictionary whose entries are exactly the
    declared field names, each bound to the value of that field, followed
    by the entry ['message'] bound to the tag of the class: its lower-cased
    name (['findnode'] for [FindNode], ['findvalue'] for [FindValue]), one
    of the eight known tags. *)
Theorem to_msgpack_shape (m : msg) :
  wf_msg m ->
  forallb packable (msg_args m) = true ->
  let data :=
    zip (map VStr (_fields (msg_class m))) (msg_args m)
    ++ [(VStr "message", VStr (lower (__name__ (msg_class m))))] in
  (exists raw, to_msgpack m = Return raw /\ packb (VDict data) = Some raw)
  /\ length data = S (length (_fields (msg_class m)))
  /\ Forall2 (fun field value => dict_get data field = Some value)
       (_fields (msg_class m)) (msg_args m)
  /\ dict_get data "message" = Some (VStr (lower (__name__ (msg_class m))))
  /\ lower (__name__ (msg_class m)) ∈ known_tags
  /\ lower (__name__ FindNode) = "findnode"
  /\ lower (__name__ FindValue) = "findvalue".
Proof.
  intros Hwf Hargs data. fold (tag (msg_class m)) in *.
  change data with (wire_map m). repeat split.
  - rewrite to_msgpack_data.
    destruct (packb_total _ (wire_map_packable m Hargs)) as [raw Hraw].
    rewrite Hraw. eauto.
  - unfold wire_map. rewrite length_app, length_zip, length_map.
    unfold wf_msg in Hwf. simpl. lia.
  - by apply wire_map_fields.
  - apply wire_map_message.
  - apply tag_known.
Qed.

(** C8 -- the ping scenario: a map with [message: 'ping'], [uuid: 'abc123'],
    a 64-byte [node] and [version: '1.0'] decodes to the [Ping] holding
    these three values; the same map with an 8-byte [node] makes
    [from_msgpack] raise the [ValueError] whose report is exactly
    [{'node': 'Invalid value.'}].  The verdicts of the three validators on
    these values are what the design document says of them: identifiers
    have a fixed length (64 bytes), [uuid] and [version] are accepted. *)
Theorem ping_scenario (raw raw' : string) (d d' : list (pyval * pyval))
  (node node' title : string) (v_uuid v_node v_version : pyval -> bool) :
  VALIDATORS !! "uuid" = Some v_uuid ->
  VALIDATORS !! "node" = Some v_node ->
  VALIDATORS !! "version" = Some v_version ->
  v_uuid (VStr "abc123") = true ->
  v_version (VStr "1.0") = true ->
  (forall s, v_node (VStr s) = Nat.eqb (String.length s) 64) ->
  ERRORS !! 2 = Some title ->
  String.length node = 64%nat ->
  String.length node' = 8%nat ->
  unpackb false raw = Some (VDict d) ->
  dict_get d "message" = Some (VStr "ping") ->
  dict_get d "uuid" = Some (VStr "abc123") ->
  dict_get d "node" = Some (VStr node) ->
  dict_get d "version" = Some (VStr "1.0") ->
  unpackb false raw' = Some (VDict d') ->
  dict_get d' "message" = Some (VStr "ping") ->
  dict_get d' "uuid" = Some (VStr "abc123") ->
  dict_get d' "node" = Some (VStr node') ->
  dict_get d' "version" = Some (VStr "1.0") ->
  from_msgpack raw = Return (Msg Ping [VStr "abc123"; VStr node; VStr "1.0"])
  /\ from_msgpack raw'
     = Raise (ValueError 2 title {[ "node" := "Invalid value." ]}).
Proof.
  intros Hvu Hvn Hvv Huuid Hversion Hnode Htitle Hlen Hlen'
    Hraw Htag Hu Hn Hv Hraw' Htag' Hu' Hn' Hv'.
  split.
  - rewrite (from_msgpack_known raw d Ping Hraw Htag).
    unfold make_message. cbn [_fields check_fields].
    unfold check_field. cbn [fst snd].
    rewrite Hu, Hvu. cbn [lift]. rewrite bind_Return, Huuid. cbn [negb].
    rewrite bind_Return. cbn [fst snd app].
    rewrite Hn, Hvn. cbn [lift]. rewrite bind_Return, Hnode, Hlen.
    cbn [Nat.eqb negb]. rewrite bind_Return. cbn [fst snd app].
    rewrite Hv, Hvv. cbn [lift]. rewrite bind_Return, Hversion. cbn [negb].
    by rewrite !bind_Return.
  - rewrite (from_msgpack_known raw' d' Ping Hraw' Htag').
    unfold make_message. cbn [_fields check_fields].
    unfold check_field. cbn [fst snd].
    rewrite Hu', Hvu. cbn [lift]. rewrite bind_Return, Huuid. cbn [negb].
    rewrite bind_Return. cbn [fst snd app].
    rewrite Hn', Hvn. cbn [lift]. rewrite bind_Return, Hnode, Hlen'.
    cbn [Nat.eqb negb]. rewrite bind_Return. cbn [fst snd app].
    rewrite Hv', Hvv. cbn [lift]. rewrite bind_Return, Hversion. cbn [negb].
    rewrite !bind_Return. cbn [fst snd].
    rewrite decide_False by apply insert_non_empty.
    by rewrite Htitle.
Qed.

Lemma tuplify_wire_map (m : msg) :
  tuplify (VDict (wire_map m)) = VDict (wire_map (tuplify_msg m)).
Proof.
  unfold tuplify, wire_map, tuplify_msg. simpl. f_equal.
  rewrite map_app. f_equal.
  generalize (_fields (msg_class m)), (msg_args m).
  induction l as [|f fields IH]; intros [|x args]; simpl; f_equal; auto.
Qed.

(** What comes back from the wire: the message with its lists turned into
    tuples, provided the validators accept these values. *)
Lemma decode_encode (m : msg) :
  forallb packable (msg_args m) = true ->
  valid_msg (tuplify_msg m) = true ->
  (to_msgpack m ≫= from_msgpack) = Return (tuplify_msg m).
Proof.
  intros Hpack Hvalid.
  apply valid_args_Forall2 in Hvalid.
  assert (Hwf : wf_msg (tuplify_msg m))
    by (symmetry; eapply Forall2_length, Hvalid).
  rewrite to_msgpack_data.
  destruct (packb_total _ (wire_map_packable m Hpack)) as [raw Hraw].
  rewrite Hraw. cbn [lift]. rewrite bind_Return.
  pose proof (unpackb_packb _ _ (wire_map_packable m Hpack) Hraw) as Hback.
  rewrite tuplify_wire_map in Hback.
  rewrite (from_msgpack_known raw _ _ Hback (wire_map_message _)).
  apply make_message_accepts.
  apply Forall2_same_length_lookup.
  split; [by eapply Forall2_length|].
  intros i field value Hfield Hvalue. split.
  - by apply (Forall2_lookup_lr _ _ _ i _ _
                 (wire_map_fields (tuplify_msg m) Hwf)).
  - by apply (Forall2_lookup_lr _ _ _ i _ _ Hvalid).
Qed.

(** A message without a list is its own [use_list=False] reading. *)
Lemma tuplify_msg_same (m : msg) :
  forallb tuple_only (msg_args m) = true -> tuplify_msg m = m.
Proof.
  destruct m as [k args]. unfold tuplify_msg. simpl. intros Htuples. f_equal.
  induction args as [|x args IH]; [done|].
  simpl in *. apply andb_true_iff in Htuples as [Hx Hargs].
  by rewrite (tuple_only_tuplify x Hx), IH.
Qed.

(** ** Further properties of the codec *)

Lemma eq_str_true (v : pyval) (k : string) : eq_str v k = true -> v = VStr k.
Proof. destruct v; simpl; try done. by intros ->%String.eqb_eq. Qed.

(** Distinct classes have distinct tags. *)
Lemma tag_inj (k1 k2 : klass) : tag k1 = tag k2 -> k1 = k2.
Proof. destruct k1, k2; try done; vm_compute; by intros [=]. Qed.

(** A message that [make_message] returns, read off the loop. *)
Lemma make_message_Return_inv (k : klass) (data : list (pyval * pyval))
  (m : msg) :
  make_message k data = Return m ->
  m = Msg k (staged data (_fields k))
  /\ Forall2 (fun field value =>
                dict_get data field = Some value
                /\ accepts field value = true)
       (_fields k) (staged data (_fields k)).
Proof.
  unfold make_message.
  destruct (check_fields data (_fields k) ([], ∅)) as [st|e] eqn:Hloop;
    [|done].
  apply check_fields_inv in Hloop as [-> _].
  rewrite bind_Return. cbn [fst snd app].
  destruct (decide (foldl (record data) ∅ (_fields k) = ∅)) as [Hnone|_].
  - unfold new. case_decide; [|done]. intros [= <-].
    split; [done|]. by apply staged_accepted, errors_empty.
  - by destruct (ERRORS !! 2).
Qed.

(** A message that [from_msgpack] returns comes from a dictionary whose
    tag is that of a class, through [make_message] for that class. *)
Lemma from_msgpack_Return_inv (raw : string) (m : msg) :
  from_msgpack raw = Return m ->
  exists d k,
    unpackb false raw = Some (VDict d)
    /\ dict_get d "message" = Some (VStr (tag k))
    /\ make_message k d = Return m.
Proof.
  unfold from_msgpack.
  destruct (unpackb false raw) as [data|] eqn:Hraw; [|done].
  cbn [lift]. rewrite bind_Return.
  destruct data as [| | | | | | |d]; try done.
  destruct (dict_get d "message") as [message|] eqn:Htag; [|done].
  cbn [lift]. rewrite bind_Return.
  repeat match goal with
         | |- context [eq_str message ?lit] =>
             destruct (eq_str message lit) eqn:?
         end;
    try (match goal with
         | Heq : eq_str message _ = true |- _ =>
             apply eq_str_true in Heq; subst message
         end;
         intros Hm; exists d;
         first [ by exists Error | by exists Ping | by exists Pong
               | by exists Store | by exists FindNode | by exists Nodes
               | by exists FindValue | by exists Value ]).
  destruct (ERRORS !! 2); simpl; [|done].
  by destruct (format_context message).
Qed.

(** X1 -- round trip in general: for a message whose field values fit the
    wire format and, once every list in them is turned into a tuple, pass
    their registered validators, decoding the encoding succeeds and returns
    the message of the same class with these tuple-bearing values. *)
Theorem encode_then_decode (m : msg) :
  forallb packable (msg_args m) = true ->
  valid_msg (tuplify_msg m) = true ->
  (to_msgpack m ≫= from_msgpack) = Return (tuplify_msg m).
Proof. apply decode_encode. Qed.

(** X2 -- what [from_msgpack] returns is a validated message: whenever it
    returns a message, the input decoded to a dictionary whose ['message']
    entry is the tag of the message's class, the message has one value per
    declared field, each value is the dictionary's entry for that field,
    and each passes its registered validator. *)
Theorem decoded_message_is_valid (raw : string) (m : msg) :
  from_msgpack raw = Return m ->
  valid_msg m = true
  /\ wf_msg m
  /\ exists d,
       unpackb false raw = Some (VDict d)
       /\ dict_get d "message" = Some (VStr (tag (msg_class m)))
       /\ Forall2 (fun field value => dict_get d field = Some value)
            (_fields (msg_class m)) (msg_args m).
Proof.
  intros (d & k & Hraw & Htag & Hm)%from_msgpack_Return_inv.
  apply make_message_Return_inv in Hm as [-> Hall]. simpl.
  split; [|split].
  - apply valid_args_Forall2. eapply Forall2_impl; [exact Hall|].
    by intros field value [_ ?].
  - unfold wf_msg. simpl. symmetry. by eapply Forall2_length.
  - exists d. repeat split; try done.
    eapply Forall2_impl; [exact Hall|]. by intros field value [? _].
Qed.

Lemma dict_get_functional (d : list (pyval * pyval)) (fields : list string)
  (args1 args2 : list pyval) :
  Forall2 (fun field value => dict_get d field = Some value) fields args1 ->
  Forall2 (fun field value => dict_get d field = Some value) fields args2 ->
  args1 = args2.
Proof.
  intros Hall. revert args2.
  induction Hall as [|f x fields args1 Hx _ IH]; intros args2 Hall2;
    inversion Hall2 as [|? y ? args2' Hy Hrest]; subst; [done|].
  f_equal; [congruence|by apply IH].
Qed.

Lemma wf_tuplify_msg (m : msg) : wf_msg m -> wf_msg (tuplify_msg m).
Proof. unfold wf_msg, tuplify_msg. simpl. by rewrite length_map. Qed.

(** The dictionary handed to [packb] determines the message. *)
Lemma wire_map_inj (m1 m2 : msg) :
  wf_msg m1 -> wf_msg m2 -> wire_map m1 = wire_map m2 -> m1 = m2.
Proof.
  intros Hwf1 Hwf2 Hsame.
  pose proof (wire_map_message m1) as Htag1.
  pose proof (wire_map_message m2) as Htag2.
  pose proof (wire_map_fields m1 Hwf1) as Hargs1.
  pose proof (wire_map_fields m2 Hwf2) as Hargs2.
  rewrite Hsame in Htag1, Hargs1.
  assert (Hclass : msg_class m1 = msg_class m2)
    by (apply tag_inj; congruence).
  destruct m1 as [k1 args1], m2 as [k2 args2]. simpl in *. subst k2.
  f_equal. by eapply dict_get_functional.
Qed.

(** X3 -- the encoding is injective up to the list/tuple distinction: two
    messages (one value per declared field, values within the wire format)
    that [to_msgpack] encodes to the same bytes have the same class and,
    once lists are read as tuples, the same field values. *)
Theorem encoding_is_injective (m1 m2 : msg) (raw : string) :
  wf_msg m1 -> wf_msg m2 ->
  forallb packable (msg_args m1) = true ->
  forallb packable (msg_args m2) = true ->
  to_msgpack m1 = Return raw ->
  to_msgpack m2 = Return raw ->
  tuplify_msg m1 = tuplify_msg m2.
Proof.
  intros Hwf1 Hwf2 Hpack1 Hpack2. rewrite !to_msgpack_data.
  destruct (packb (VDict (wire_map m1))) as [raw1|] eqn:Hraw1; [|done].
  destruct (packb (VDict (wire_map m2))) as [raw2|] eqn:Hraw2; [|done].
  simpl. intros [= ->] [= ->].
  pose proof (unpackb_packb _ _ (wire_map_packable m1 Hpack1) Hraw1) as H1.
  pose proof (unpackb_packb _ _ (wire_map_packable m2 Hpack2) Hraw2) as H2.
  rewrite tuplify_wire_map in H1, H2.
  apply wire_map_inj; [by apply wf_tuplify_msg..|]. congruence.
Qed.

Lemma tuple_only_after (v : pyval) : tuple_only (tuplify v) = true.
Proof.
  unfold tuplify.
  induction v as [| | | | |l IH|l IH|d IH] using pyval_nested_ind;
    simpl; try done.
  - induction IH as [|x l Hx _ IHl]; simpl; [done|]. by rewrite Hx, IHl.
  - induction IH as [|x l Hx _ IHl]; simpl; [done|]. by rewrite Hx, IHl.
  - induction IH as [|[k x] d [Hk Hx] _ IHd]; simpl in *; [done|].
    by rewrite Hk, Hx, IHd.
Qed.

Lemma hashable_tuple_only (v : pyval) :
  hashable v = true -> tuple_only v = true.
Proof.
  induction v as [| | | | |l IH|l IH|d IH] using pyval_nested_ind;
    simpl; try done.
  intros Hall. induction IH as [|x l Hx _ IHl]; simpl in *; [done|].
  apply andb_true_iff in Hall as [??]. by rewrite Hx, IHl.
Qed.

Lemma packable_tuplify (v : pyval) :
  packable v = true -> packable (tuplify v) = true.
Proof.
  unfold tuplify.
  induction v as [| | | | |l IH|l IH|d IH] using pyval_nested_ind;
    simpl; try done.
  - rewrite length_map. intros [-> Hall]%andb_true_iff. simpl.
    induction IH as [|x l Hx _ IHl]; simpl in *; [done|].
    apply andb_true_iff in Hall as [??]. by rewrite Hx, IHl.
  - rewrite length_map. intros [-> Hall]%andb_true_iff. simpl.
    induction IH as [|x l Hx _ IHl]; simpl in *; [done|].
    apply andb_true_iff in Hall as [??]. by rewrite Hx, IHl.
  - rewrite length_map. intros [-> Hall]%andb_true_iff. simpl.
    induction IH as [|[k x] d [Hk Hx] _ IHd]; simpl in *; [done|].
    apply andb_true_iff
      in Hall as [[[Hh Hpk]%andb_true_iff Hpx]%andb_true_iff Hpd].
    fold (tuplify k).
    rewrite (tuple_only_tuplify k (hashable_tuple_only k Hh)), Hh.
    simpl. by rewrite Hpk, Hx, IHd.
Qed.

Lemma tuplify_msg_idemp (m : msg) :
  tuplify_msg (tuplify_msg m) = tuplify_msg m.
Proof.
  unfold tuplify_msg. simpl. f_equal. rewrite map_map.
  apply map_ext. intros v. apply tuple_only_tuplify, tuple_only_after.
Qed.

(** X4 -- the round trip is idempotent: under the hypotheses of X1, what
    comes back from the wire can be encoded again, and decoding that second
    encoding returns the very same message. *)
Theorem round_trip_is_idempotent (m : msg) :
  forallb packable (msg_args m) = true ->
  valid_msg (tuplify_msg m) = true ->
  ((to_msgpack m ≫= from_msgpack)
     ≫= fun m' => to_msgpack m' ≫= from_msgpack)
  = (to_msgpack m ≫= from_msgpack).
Proof.
  intros Hpack Hvalid.
  rewrite (decode_encode m Hpack Hvalid), bind_Return.
  rewrite <- (tuplify_msg_idemp m) at 2.
  apply decode_encode.
  - simpl. rewrite forallb_forall in Hpack. apply forallb_forall.
    intros v (x & <- & Hx)%in_map_iff. by apply packable_tuplify, Hpack.
  - by rewrite tuplify_msg_idemp.
Qed.

Lemma check_fields_app (data : list (pyval * pyval))
  (fields1 fields2 : list string) (st : loop_state) :
  check_fields data (fields1 ++ fields2) st
  = check_fields data fields1 st ≫= check_fields data fields2.
Proof.
  revert st. induction fields1 as [|f fields1 IH]; intros st; [done|].
  cbn [app check_fields].
  destruct (check_field data st f) as [st'|e]; [|done].
  rewrite !bind_Return. apply IH.
Qed.

(** The loop raises only on a present field that has no validator. *)
Lemma check_field_Raise (data : list (pyval * pyval)) (st : loop_state)
  (field : string) (e : exn) :
  check_field data st field = Raise e ->
  is_missing data field = false
  /\ VALIDATORS !! field = None
  /\ e = KeyError (VStr field).
Proof.
  unfold check_field, is_missing.
  destruct (dict_get data field) as [value|]; [|done].
  destruct (VALIDATORS !! field) as [validator|]; simpl.
  - by destruct (validator value).
  - by intros [= <-].
Qed.

Lemma check_fields_Raise (data : list (pyval * pyval)) (fields : list string)
  (st : loop_state) (e : exn) :
  check_fields data fields st = Raise e ->
  exists field,
    field ∈ fields
    /\ is_missing data field = false
    /\ VALIDATORS !! field = None
    /\ e = KeyError (VStr field).
Proof.
  revert st. induction fields as [|f fields IH]; intros st; [done|].
  cbn [check_fields].
  destruct (check_field data st f) as [st'|e'] eqn:Hstep.
  - rewrite bind_Return. intros (field & ? & ?)%IH.
    exists field. split; [by right|done].
  - simpl. intros [= <-]. apply check_field_Raise in Hstep.
    exists f. split; [by left|done].
Qed.

(** X5 -- the outcomes of [make_message]: it returns a message of the
    class it was given, with one value per declared field; or raises the
    [ValueError] with a non-empty report; or, when a table lacks an entry,
    the [KeyError] of [ERRORS[2]] or of [VALIDATORS[field]] for a field
    that is present in the map.  Nothing else: in particular the class
    constructor never fails on the number of its arguments. *)
Theorem make_message_outcomes (k : klass) (data : list (pyval * pyval)) :
  (exists m, make_message k data = Return m /\ msg_class m = k /\ wf_msg m)
  \/ (exists title errors,
        ERRORS !! 2 = Some title /\ errors <> ∅
        /\ make_message k data = Raise (ValueError 2 title errors))
  \/ (ERRORS !! 2 = None
      /\ make_message k data = Raise (KeyError (VInt 2)))
  \/ (exists field,
        field ∈ _fields k /\ is_missing data field = false
        /\ VALIDATORS !! field = None
        /\ make_message k data = Raise (KeyError (VStr field))).
Proof.
  unfold make_message.
  destruct (check_fields data (_fields k) ([], ∅)) as [st|e] eqn:Hloop.
  - apply check_fields_inv in Hloop as [-> _].
    rewrite bind_Return. cbn [fst snd app].
    destruct (decide (foldl (record data) ∅ (_fields k) = ∅)) as [Hnone|Hsome].
    + left. exists (Msg k (staged data (_fields k))).
      assert (Hlen : length (staged data (_fields k)) = length (_fields k)).
      { symmetry. eapply Forall2_length.
        by apply staged_accepted, errors_empty. }
      unfold new, wf_msg. by rewrite decide_True.
    + right. destruct (ERRORS !! 2) as [title|] eqn:Htitle; simpl.
      * left. eauto.
      * right. left. eauto.
  - do 3 right. apply check_fields_Raise in Hloop as (field & ? & ? & ? & ->).
    exists field. eauto.
Qed.

(** X6 -- a missing validator pre-empts the report: as soon as the loop
    reaches a field that is present in the map and has no entry in
    [VALIDATORS], [make_message] raises [KeyError(field)]; the errors
    recorded for the fields before it are lost and the fields after it are
    not looked at. *)
Theorem missing_validator_preempts_report (k : klass)
  (data : list (pyval * pyval)) (before after : list string)
  (field : string) (value : pyval) :
  _fields k = before ++ field :: after ->
  (forall f, f ∈ before -> is_missing data f = false ->
             is_Some (VALIDATORS !! f)) ->
  dict_get data field = Some value ->
  VALIDATORS !! field = None ->
  make_message k data = Raise (KeyError (VStr field)).
Proof.
  intros Hfields Hbefore Hpresent Hnone. unfold make_message.
  rewrite Hfields, check_fields_app, (check_fields_run _ _ _ Hbefore), bind_Return.
  cbn [check_fields]. unfold check_field. by rewrite Hpresent, Hnone.
Qed.

Lemma length_filter_all {A} (p : A -> bool) (l : list A) :
  (forall x, x ∈ l -> p x = true) -> length (List.filter p l) = length l.
Proof.
  induction l as [|x l IH]; intros Hall; simpl; [done|].
  rewrite (Hall x) by by left. simpl. f_equal. apply IH.
  intros; apply Hall; by right.
Qed.

Lemma length_filter_none {A} (p : A -> bool) (l : list A) :
  (forall x, x ∈ l -> p x = false) -> length (List.filter p l) = 0%nat.
Proof.
  induction l as [|x l IH]; intros Hall; simpl; [done|].
  rewrite (Hall x) by by left. apply IH. intros; apply Hall; by right.
Qed.

(** X7 -- a map that holds the tag and nothing else: whatever the registry,
    every declared field of the class is reported as missing, and the
    report has as many entries as the class has fields (no validator is
    consulted for a field that is absent). *)
Theorem bare_tag_reports_every_field (raw : string)
  (d : list (pyval * pyval)) (k : klass) (title : string) :
  unpackb false raw = Some (VDict d) ->
  dict_get d "message" = Some (VStr (tag k)) ->
  (forall field, field ∈ _fields k -> dict_get d field = None) ->
  ERRORS !! 2 = Some title ->
  exists errors,
    from_msgpack raw = Raise (ValueError 2 title errors)
    /\ size errors = length (_fields k)
    /\ (forall field,
          errors !! field = Some "Missing field." <-> field ∈ _fields k).
Proof.
  intros Hraw Htag Habsent Htitle.
  assert (Hmissing : forall field, field ∈ _fields k ->
                                   is_missing d field = true).
  { intros field Hin. unfold is_missing. by rewrite (Habsent field Hin). }
  rewrite (from_msgpack_known raw d k Hraw Htag).
  rewrite make_message_run
    by (intros field Hin; by rewrite (Hmissing field Hin)).
  cbn zeta. set (errors := foldl (record d) ∅ (_fields k)).
  assert (Hsize : size errors = length (_fields k)).
  { unfold errors. rewrite errors_size;
      [|apply fields_NoDup|intros; apply lookup_empty].
    rewrite map_size_empty.
    rewrite (length_filter_all (fun f => is_missing d f) _ Hmissing).
    rewrite (length_filter_none (fun f => is_invalid d f)); [lia|].
    intros field Hin. unfold is_invalid. by rewrite (Habsent field Hin). }
  rewrite decide_False.
  - rewrite Htitle. cbn [lift]. rewrite bind_Return.
    exists errors. split; [done|]. split; [done|].
    intros field. unfold errors. rewrite errors_lookup_empty. split.
    + by intros [? _].
    + intros Hin. split; [done|]. by apply report_missing, Hmissing.
  - intros Hempty. rewrite Hempty, map_size_empty in Hsize.
    by destruct k.
Qed.

(** X8 -- a tag that is an array: with [use_list=False] it is a tuple, the
    argument list of the [%] in the message of the failure.  Such a map is
    never dispatched to a class: a tuple of one element is reported as an
    unknown message type under the name of that element; a tuple of any
    other length makes [from_msgpack] raise [TypeError], not the
    [ValueError] of the module. *)
Theorem tuple_tag_outcome (raw : string) (d : list (pyval * pyval))
  (l : list pyval) (title : string) :
  unpackb false raw = Some (VDict d) ->
  dict_get d "message" = Some (VTuple l) ->
  ERRORS !! 2 = Some title ->
  from_msgpack raw
  = match l with
    | [x] =>
        Raise (ValueError 2 title
                 {[ "context" := str x +:+ " is not a valid message type." ]})
    | _ => Raise TypeError
    end.
Proof.
  intros Hraw Htag Htitle. unfold from_msgpack.
  rewrite Hraw. cbn [lift]. rewrite bind_Return, Htag. cbn [lift].
  rewrite bind_Return. cbn [eq_str]. rewrite Htitle. cbn [lift].
  rewrite bind_Return. by destruct l as [|x [|y l]].
Qed.

(** Decoding an encoding always reaches [make_message] for the class of
    the message that was encoded. *)
Lemma roundtrip_dispatch (m : msg) :
  forallb packable (msg_args m) = true ->
  (to_msgpack m ≫= from_msgpack)
  = make_message (msg_class m) (wire_map (tuplify_msg m)).
Proof.
  intros Hpack. rewrite to_msgpack_data.
  destruct (packb_total _ (wire_map_packable m Hpack)) as [raw Hraw].
  rewrite Hraw. cbn [lift]. rewrite bind_Return.
  pose proof (unpackb_packb _ _ (wire_map_packable m Hpack) Hraw) as Hback.
  rewrite tuplify_wire_map in Hback.
  apply (from_msgpack_known raw _ _ Hback (wire_map_message _)).
Qed.

Lemma valid_args_false (fields : list string) (args : list pyval) :
  length args = length fields ->
  valid_args fields args = false ->
  exists i field value,
    fields !! i = Some field /\ args !! i = Some value
    /\ accepts field value = false.
Proof.
  revert args. induction fields as [|f fields IH]; intros [|x args] Hlen;
    simpl in *; try done.
  destruct (accepts f x) eqn:Hacc; simpl.
  - intros (i & field & value & ? & ? & ?)%IH; [|congruence].
    by exists (S i), field, value.
  - intros _. by exists 0%nat, f, x.
Qed.

(** X9 -- [to_msgpack] does not validate: a message with a value that its
    validator rejects is encoded all the same, and it is [from_msgpack]
    that fails on these bytes, with the [ValueError] whose report names
    exactly the fields whose values (lists read as tuples) are rejected;
    no field is reported as missing. *)
Theorem invalid_message_is_rejected_on_decode (m : msg) (title : string) :
  wf_msg m ->
  forallb packable (msg_args m) = true ->
  registered (_fields (msg_class m)) ->
  ERRORS !! 2 = Some title ->
  valid_msg (tuplify_msg m) = false ->
  exists errors,
    (to_msgpack m ≫= from_msgpack) = Raise (ValueError 2 title errors)
    /\ (forall field why, errors !! field = Some why ->
                          why = "Invalid value.")
    /\ (forall i field value,
          _fields (msg_class m) !! i = Some field ->
          msg_args m !! i = Some value ->
          errors !! field = Some "Invalid value."
          <-> accepts field (tuplify value) = false).
Proof.
  intros Hwf Hpack Hreg Htitle Hinvalid.
  rewrite (roundtrip_dispatch m Hpack).
  rewrite make_message_run by (intros; by apply Hreg). cbn zeta.
  set (data := wire_map (tuplify_msg m)).
  set (errors := foldl (record data) ∅ (_fields (msg_class m))).
  pose proof (wire_map_fields _ (wf_tuplify_msg m Hwf)) as Hfields.
  fold data in Hfields. cbn [tuplify_msg msg_class msg_args] in Hfields.
  assert (Hget : forall i field value,
             _fields (msg_class m) !! i = Some field ->
             msg_args m !! i = Some value ->
             dict_get data field = Some (tuplify value)).
  { intros i field value Hf Hv.
    apply (Forall2_lookup_lr _ _ _ i _ _ Hfields Hf).
    by rewrite list_lookup_fmap, Hv. }
  assert (Hlookup : forall i field value,
             _fields (msg_class m) !! i = Some field ->
             msg_args m !! i = Some value ->
             errors !! field = Some "Invalid value."
             <-> accepts field (tuplify value) = false).
  { intros i field value Hf Hv. unfold errors.
    rewrite errors_lookup_empty, report_invalid. unfold is_invalid.
    rewrite (Hget i field value Hf Hv), negb_true_iff.
    split; [by intros [_ ?]|]. intros ?. split; [|done].
    by eapply list_elem_of_lookup_2. }
  assert (Hsome : errors <> ∅).
  { apply valid_args_false in Hinvalid as (i & field & value & Hf & Hv & Hrej);
      [|by apply wf_tuplify_msg].
    cbn [tuplify_msg msg_class msg_args] in Hf, Hv.
    rewrite list_lookup_fmap in Hv.
    destruct (msg_args m !! i) as [x|] eqn:Hx; [|done].
    simpl in Hv. injection Hv as <-.
    intros Hempty. apply (Hlookup i field x Hf Hx) in Hrej.
    by rewrite Hempty in Hrej. }
  rewrite decide_False by done. rewrite Htitle. cbn [lift].
  rewrite bind_Return. exists errors. split; [done|]. split; [|done].
  intros field why [Hin Hwhy]%errors_lookup_empty.
  apply list_elem_of_lookup in Hin as [i Hf].
  destruct (lookup_lt_is_Some_2 (msg_args m) i) as [value Hv].
  { rewrite Hwf. by eapply lookup_lt_Some. }
  unfold report, is_missing in Hwhy.
  rewrite (Hget i field value Hf Hv) in Hwhy.
  destruct (is_invalid data field); congruence.
Qed.

(** X10 -- classes with the same fields differ by the tag only:
    [make_message] uses the class for its field names and to build the
    result, so for two classes that declare the same fields ([Ping] and
    [Pong], [Store] and [Value], [FindNode] and [FindValue]) it accepts
    the same dictionaries with the same field values, and it fails on the
    same dictionaries with the same exception. *)
Theorem same_fields_same_payload (k1 k2 : klass)
  (data : list (pyval * pyval)) :
  _fields k1 = _fields k2 ->
  match make_message k1 data with
  | Return m => make_message k2 data = Return (Msg k2 (msg_args m))
  | Raise e => make_message k2 data = Raise e
  end.
Proof.
  intros Hsame. unfold make_message. rewrite Hsame.
  destruct (check_fields data (_fields k2) ([], ∅)) as [st|e]; [|done].
  rewrite !bind_Return.
  destruct (decide (st.2 = ∅)); [|by destruct (ERRORS !! 2)].
  unfold new. rewrite Hsame. by case_decide.
Qed.

Lemma context_not_a_field (k : klass) : "context" ∉ _fields k.
Proof. destruct k; by apply (bool_decide_unpack _). Qed.

Lemma make_message_ValueError_inv (k : klass) (data : list (pyval * pyval))
  (code : Z) (title : string) (details : gmap string string) :
  make_message k data = Raise (ValueError code title details) ->
  code = 2 /\ ERRORS !! 2 = Some title /\ details <> ∅
  /\ details = foldl (record data) ∅ (_fields k).
Proof.
  unfold make_message.
  destruct (check_fields data (_fields k) ([], ∅)) as [st|e] eqn:Hloop.
  - apply check_fields_inv in Hloop as [-> _].
    rewrite bind_Return. cbn [fst snd].
    destruct (decide (foldl (record data) ∅ (_fields k) = ∅)) as [|Hsome].
    + unfold new. by case_decide.
    + destruct (ERRORS !! 2) as [t|]; simpl; [|done].
      intros [= <- <- <-]. by repeat split.
  - apply check_fields_Raise in Hloop as (field & _ & _ & _ & ->). done.
Qed.

Lemma format_context_Raise (message : pyval) (e : exn) :
  format_context message = Raise e -> e = TypeError.
Proof.
  unfold format_context.
  destruct message as [| | | | | |[|x [|y l]]|]; simpl; congruence.
Qed.


(** ** Equality of what comes back from the wire *)

Lemma number_eq_refl (a : number) : a <> NaN -> number_eq a a = true.
Proof. destruct a; simpl; try done; intros _; apply Z.eqb_refl. Qed.

Lemma number_of_float_not_nan (bits : Z) :
  is_nan bits = false -> number_of_float bits <> NaN.
Proof.
  unfold number_of_float. intros ->. by destruct (is_inf bits).
Qed.

(** An object without NaN is equal to its copy. *)
Lemma py_eq_refl (v : pyval) : nan_free v = true -> py_eq v v = true.
Proof.
  induction v as [|b|n|bits|s|l IH|l IH|d IH] using pyval_nested_ind;
    cbn [nan_free py_eq number_of]; intros Hfree.
  - done.
  - by apply number_eq_refl.
  - by apply number_eq_refl.
  - apply number_eq_refl, number_of_float_not_nan.
    by apply negb_true_iff.
  - apply String.eqb_refl.
  - induction IH as [|x l Hx _ IHl]; simpl in *; [done|].
    apply andb_true_iff in Hfree as [??]. by rewrite Hx, IHl.
  - induction IH as [|x l Hx _ IHl]; simpl in *; [done|].
    apply andb_true_iff in Hfree as [??]. by rewrite Hx, IHl.
  - rewrite Nat.eqb_refl. simpl.
    apply forallb_forall. intros [k x] Hin.
    apply existsb_exists. exists (k, x). split; [done|].
    rewrite forallb_forall in Hfree.
    apply Hfree in Hin as Hkx. apply andb_true_iff in Hkx as [Hk Hx].
    rewrite Forall_forall in IH.
    destruct (IH (k, x)) as [IHk IHx]; [by apply list_elem_of_In|].
    simpl in *. by rewrite IHk, IHx.
Qed.

Lemma py_eq_msg_refl (m : msg) :
  forallb nan_free (msg_args m) = true -> py_eq_msg m m = true.
Proof. intros Hfree. by apply (py_eq_refl (VTuple (msg_args m))). Qed.

(** C1 (as the code has it) -- round trip: for every message whose field
    values pass their registered validators, can be serialised (64-bit
    numbers, lengths below [2^32]), hold no list (sequences are tuples, the
    form [use_list=False] returns) and hold no NaN, decoding the encoding
    of the message returns a message of the same class that is [==] to
    it. *)
Theorem roundtrip (m : msg) :
  valid_msg m = true ->
  forallb packable (msg_args m) = true ->
  forallb tuple_only (msg_args m) = true ->
  forallb nan_free (msg_args m) = true ->
  exists m',
    (to_msgpack m ≫= from_msgpack) = Return m'
    /\ msg_class m' = msg_class m
    /\ py_eq_msg m' m = true.
Proof.
  intros Hvalid Hpack Htuples Hfree.
  pose proof (tuplify_msg_same m Htuples) as Hsame.
  exists m. split; [|split; [done|by apply py_eq_msg_refl]].
  rewrite <- Hsame at 2. apply decode_encode; [done|by rewrite Hsame].
Qed.

(** An exception that [make_message] raises. *)
Lemma make_message_Raise_inv (k : klass) (data : list (pyval * pyval))
  (e : exn) :
  make_message k data = Raise e ->
  (exists title,
     ERRORS !! 2 = Some title
     /\ foldl (record data) ∅ (_fields k) <> ∅
     /\ e = ValueError 2 title (foldl (record data) ∅ (_fields k)))
  \/ e = KeyError (VInt 2)
  \/ (exists field, field ∈ _fields k /\ e = KeyError (VStr field)).
Proof.
  unfold make_message.
  destruct (check_fields data (_fields k) ([], ∅)) as [st|e'] eqn:Hloop.
  - apply check_fields_inv in Hloop as [-> _].
    rewrite bind_Return. cbn [fst snd app].
    destruct (decide (foldl (record data) ∅ (_fields k) = ∅)) as [Hnone|Hsome].
    + assert (Hlen : length (staged data (_fields k)) = length (_fields k)).
      { symmetry. eapply Forall2_length.
        by apply staged_accepted, errors_empty. }
      unfold new. by rewrite decide_True.
    + destruct (ERRORS !! 2) as [title|]; simpl; intros [= <-]; eauto.
  - apply check_fields_Raise in Hloop as (field & ? & _ & _ & ->).
    simpl. intros [= <-]. eauto.
Qed.




(** X11 -- the failures of [from_msgpack] once the bytes have decoded:
    the exception is a [TypeError], a [KeyError], or the [ValueError] of
    the module, with the code 2 and the title [ERRORS[2]]; and its third
    argument is either the one-entry dictionary [{'context': ...}] of an
    unknown message type, or a non-empty report whose keys are declared
    fields of one class, each bound to ['Missing field.'] or
    ['Invalid value.'], which never has a ['context'] key: the two can be
    told apart. *)
Theorem value_errors_are_distinguishable (raw : string) (v : pyval)
  (e : exn) :
  unpackb false raw = Some v ->
  from_msgpack raw = Raise e ->
  e = TypeError
  \/ (exists key, e = KeyError key)
  \/ (exists title details,
        e = ValueError 2 title details /\ ERRORS !! 2 = Some title
        /\ ((exists context, details = {[ "context" := context ]})
            \/ (details <> ∅ /\ details !! "context" = None
                /\ exists k, forall field why,
                     details !! field = Some why ->
                     field ∈ _fields k
                     /\ (why = "Missing field."
                         \/ why = "Invalid value.")))).
Proof.
  unfold from_msgpack. intros ->. cbn [lift]. rewrite bind_Return.
  destruct v as [| | | | | | |d]; try (intros [= <-]; by left).
  destruct (dict_get d "message") as [message|]; simpl;
    [|intros [= <-]; right; left; eauto].
  assert (Hreport : forall k,
             make_message k d = Raise e ->
             e = TypeError
             \/ (exists key, e = KeyError key)
             \/ (exists title details,
                   e = ValueError 2 title details /\ ERRORS !! 2 = Some title
                   /\ ((exists context, details = {[ "context" := context ]})
                       \/ (details <> ∅ /\ details !! "context" = None
                           /\ exists k, forall field why,
                                details !! field = Some why ->
                                field ∈ _fields k
                                /\ (why = "Missing field."
                                    \/ why = "Invalid value."))))).
  { intros k [(title & Htitle & Hsome & ->)|[->|(field & _ & ->)]]
             %make_message_Raise_inv; [|right; left; eauto..].
    do 2 right. eexists _, _. split; [done|]. split; [done|].
    right. split; [done|]. split.
    - destruct (foldl (record d) ∅ (_fields k) !! "context") as [why|] eqn:Hc;
        [|done].
      apply errors_lookup_empty in Hc as [Hin _].
      by destruct (context_not_a_field k).
    - exists k. intros field why [Hin Hwhy]%errors_lookup_empty.
      split; [done|]. unfold report in Hwhy.
      destruct (is_missing d field); [left; congruence|].
      destruct (is_invalid d field); [right; congruence|done]. }
  repeat match goal with
         | |- context [eq_str message ?lit] =>
             destruct (eq_str message lit); [by apply Hreport|]
         end.
  destruct (ERRORS !! 2) as [title|] eqn:Htitle; simpl;
    [|intros [= <-]; right; left; eauto].
  destruct (format_context message) as [context|e'] eqn:Hformat; simpl.
  - intros [= <-]. do 2 right. eexists _, _. split; [done|].
    split; [done|]. left. eauto.
  - apply format_context_Raise in Hformat as ->. intros [= <-]. by left.
Qed.
End Messages.

(** * Running the codec *)

(** ** A reference implementation of the library

    The MessagePack format as the Python 2 binding of the library writes
    and reads it: nil, booleans, integers, floating point numbers (written
    in double precision), raw byte strings, arrays and maps.  It instantiates
    [MsgPack], so that every statement above can be run on concrete
    bytes. *)
Module RefCodec.

Definition byte (n : Z) : ascii := ascii_of_N (Z.to_N n).
Definition code (b : ascii) : Z := Z.of_N (N_of_ascii b).

(** [k] bytes, most significant first. *)
Fixpoint be (k : nat) (n : Z) : list ascii :=
  match k with
  | O => []
  | S k' => be k' (n / 256) ++ [byte (n mod 256)]
  end.

Definition unbe (bs : list ascii) : Z :=
  fold_left (fun acc b => acc * 256 + code b) bs 0.

Definition pack_int (n : Z) : list ascii :=
  if 0 <=? n then
    if n <? 128 then [byte n]
    else if n <? 2 ^ 8 then byte 0xcc :: be 1 n
    else if n <? 2 ^ 16 then byte 0xcd :: be 2 n
    else if n <? 2 ^ 32 then byte 0xce :: be 4 n
    else byte 0xcf :: be 8 n
  else
    if -32 <=? n then [byte (256 + n)]
    else if - 2 ^ 7 <=? n then byte 0xd0 :: be 1 (2 ^ 8 + n)
    else if - 2 ^ 15 <=? n then byte 0xd1 :: be 2 (2 ^ 16 + n)
    else if - 2 ^ 31 <=? n then byte 0xd2 :: be 4 (2 ^ 32 + n)
    else byte 0xd3 :: be 8 (2 ^ 64 + n).

(** The length prefix of a raw, an array or a map: the short form folds a
    small length into the type byte. *)
Definition header (fix_tag fix_max tag16 tag32 n : Z) : list ascii :=
  if n <? fix_max then [byte (fix_tag + n)]
  else if n <? 2 ^ 16 then byte tag16 :: be 2 n
  else byte tag32 :: be 4 n.

Definition raw_header : Z -> list ascii := header 0xa0 32 0xda 0xdb.
Definition array_header : Z -> list ascii := header 0x90 16 0xdc 0xdd.
Definition map_header : Z -> list ascii := header 0x80 16 0xde 0xdf.

Fixpoint pack (v : pyval) : list ascii :=
  match v with
  | VNone => [byte 0xc0]
  | VBool false => [byte 0xc2]
  | VBool true => [byte 0xc3]
  | VInt n => pack_int n
  | VFloat bits => byte 0xcb :: be 8 bits
  | VStr s =>
      raw_header (Z.of_nat (String.length s)) ++ list_ascii_of_string s
  | VList l | VTuple l =>
      array_header (Z.of_nat (length l)) ++ flat_map pack l
  | VDict d =>
      map_header (Z.of_nat (length d))
      ++ flat_map (fun kv => match kv with (k, x) => pack k ++ pack x end) d
  end.

Definition packb (v : pyval) : option string :=
  if packable v then Some (string_of_list_ascii (pack v)) else None.

(** The 64 bits of the double that has the value of the single precision
    number of bits [n]: same sign, exponent rebiased, fraction widened; a
    subnormal single is a normal double. *)
Definition double_of_single (n : Z) : Z :=
  let sign := n / 2 ^ 31 in
  let e := (n / 2 ^ 23) mod 2 ^ 8 in
  let f := n mod 2 ^ 23 in
  let magnitude :=
    if e =? 255 then 2047 * 2 ^ 52 + f * 2 ^ 29
    else if e =? 0 then
      if f =? 0 then 0
      else
        let k := Z.log2 f in
        (k - 149 + 1023) * 2 ^ 52 + (f - 2 ^ k) * 2 ^ (52 - k)
    else (e - 127 + 1023) * 2 ^ 52 + f * 2 ^ 29 in
  sign * 2 ^ 63 + magnitude.

(** The next [n] bytes and what follows them. *)
Definition take_bytes (n : Z) (bs : list ascii)
  : option (list ascii * list ascii) :=
  if (0 <=? n) && (n <=? Z.of_nat (length bs))
  then Some (take (Z.to_nat n) bs, drop (Z.to_nat n) bs)
  else None.

Definition read_uint (k : Z) (bs : list ascii) : option (Z * list ascii) :=
  '(h, t) ← take_bytes k bs; Some (unbe h, t).

Definition read_int (k : Z) (bs : list ascii) : option (Z * list ascii) :=
  '(u, t) ← read_uint k bs;
  Some (if u <? 2 ^ (8 * k - 1) then u else u - 2 ^ (8 * k), t).

Definition read_raw (n : Z) (bs : list ascii) : option (pyval * list ascii) :=
  '(h, t) ← take_bytes n bs; Some (VStr (string_of_list_ascii h), t).

Section unpack.
Variable use_list : bool.

Definition sequence (l : list pyval) : pyval :=
  if use_list then VList l else VTuple l.

(** Dispatch on the type byte [t]; [items] and [pairs] read the elements
    of an array and the entries of a map. *)
Definition decode_tag
  (items : Z -> list ascii -> option (list pyval * list ascii))
  (pairs : Z -> list ascii -> option (list (pyval * pyval) * list ascii))
  (t : Z) (bs : list ascii) : option (pyval * list ascii) :=
  if t <? 0x80 then Some (VInt t, bs)
  else if t <? 0x90 then '(d, bs) ← pairs (t - 0x80) bs; Some (VDict d, bs)
  else if t <? 0xa0 then '(l, bs) ← items (t - 0x90) bs; Some (sequence l, bs)
  else if t <? 0xc0 then read_raw (t - 0xa0) bs
  else if t =? 0xc0 then Some (VNone, bs)
  else if t =? 0xc2 then Some (VBool false, bs)
  else if t =? 0xc3 then Some (VBool true, bs)
  else if t =? 0xca then
    '(n, bs) ← read_uint 4 bs; Some (VFloat (double_of_single n), bs)
  else if t =? 0xcb then '(n, bs) ← read_uint 8 bs; Some (VFloat n, bs)
  else if t =? 0xcc then '(n, bs) ← read_uint 1 bs; Some (VInt n, bs)
  else if t =? 0xcd then '(n, bs) ← read_uint 2 bs; Some (VInt n, bs)
  else if t =? 0xce then '(n, bs) ← read_uint 4 bs; Some (VInt n, bs)
  else if t =? 0xcf then '(n, bs) ← read_uint 8 bs; Some (VInt n, bs)
  else if t =? 0xd0 then '(n, bs) ← read_int 1 bs; Some (VInt n, bs)
  else if t =? 0xd1 then '(n, bs) ← read_int 2 bs; Some (VInt n, bs)
  else if t =? 0xd2 then '(n, bs) ← read_int 4 bs; Some (VInt n, bs)
  else if t =? 0xd3 then '(n, bs) ← read_int 8 bs; Some (VInt n, bs)
  else if t =? 0xda then '(n, bs) ← read_uint 2 bs; read_raw n bs
  else if t =? 0xdb then '(n, bs) ← read_uint 4 bs; read_raw n bs
  else if t =? 0xdc then
    '(n, bs) ← read_uint 2 bs; '(l, bs) ← items n bs; Some (sequence l, bs)
  else if t =? 0xdd then
    '(n, bs) ← read_uint 4 bs; '(l, bs) ← items n bs; Some (sequence l, bs)
  else if t =? 0xde then
    '(n, bs) ← read_uint 2 bs; '(d, bs) ← pairs n bs; Some (VDict d, bs)
  else if t =? 0xdf then
    '(n, bs) ← read_uint 4 bs; '(d, bs) ← pairs n bs; Some (VDict d, bs)
  else if 0xe0 <=? t then Some (VInt (t - 256), bs)
  else None.

(** One object off the front of [bs].  The recursion is bounded by [fuel];
    a key that cannot be hashed aborts the decoding, as the insertion into
    the dictionary does in Python. *)
Fixpoint unpack (fuel : nat) (bs : list ascii) {struct fuel}
  : option (pyval * list ascii) :=
  match fuel, bs with
  | S fuel', b :: bs' =>
      decode_tag (unpack_items fuel') (unpack_pairs fuel') (code b) bs'
  | _, _ => None
  end
with unpack_items (fuel : nat) (n : Z) (bs : list ascii) {struct fuel}
  : option (list pyval * list ascii) :=
  if n <=? 0 then Some ([], bs)
  else
    match fuel with
    | O => None
    | S fuel' =>
        '(x, bs) ← unpack fuel' bs;
        '(l, bs) ← unpack_items fuel' (n - 1) bs;
        Some (x :: l, bs)
    end
with unpack_pairs (fuel : nat) (n : Z) (bs : list ascii) {struct fuel}
  : option (list (pyval * pyval) * list ascii) :=
  if n <=? 0 then Some ([], bs)
  else
    match fuel with
    | O => None
    | S fuel' =>
        '(k, bs) ← unpack fuel' bs;
        if hashable k then
          '(x, bs) ← unpack fuel' bs;
          '(d, bs) ← unpack_pairs fuel' (n - 1) bs;
          Some ((k, x) :: d, bs)
        else None
    end.

End unpack.

(** The whole of [raw] must be one object. *)
Definition unpackb (use_list : bool) (raw : string) : option pyval :=
  let bs := list_ascii_of_string raw in
  match unpack use_list (2 * length bs) bs with
  | Some (v, []) => Some v
  | _ => None
  end.

(** *** The reference implementation meets the contract *)

Lemma code_byte (n : Z) : 0 <= n < 256 -> code (byte n) = n.
Proof.
  intros Hn. unfold code, byte.
  rewrite N_ascii_embedding by lia. lia.
Qed.

Lemma length_be (k : nat) (n : Z) : length (be k n) = k.
Proof.
  revert n. induction k as [|k IH]; intros n; simpl; [done|].
  rewrite length_app, IH. simpl. lia.
Qed.

Lemma unbe_snoc (bs : list ascii) (b : ascii) :
  unbe (bs ++ [b]) = unbe bs * 256 + code b.
Proof. unfold unbe. by rewrite fold_left_app. Qed.

Lemma unbe_be (k : nat) (n : Z) :
  0 <= n < 256 ^ Z.of_nat k -> unbe (be k n) = n.
Proof.
  revert n. induction k as [|k IH]; intros n Hn.
  - simpl in *. unfold unbe. simpl. lia.
  - simpl be. rewrite unbe_snoc.
    rewrite Nat2Z.inj_succ, Z.pow_succ_r in Hn by lia.
    rewrite IH, code_byte.
    + pose proof (Z.div_mod n 256). lia.
    + apply Z.mod_pos_bound. lia.
    + split; [apply Z.div_pos; lia|].
      apply Z.div_lt_upper_bound; lia.
Qed.

Lemma take_bytes_app (h t : list ascii) :
  take_bytes (Z.of_nat (length h)) (h ++ t) = Some (h, t).
Proof.
  unfold take_bytes. rewrite length_app, Nat2Z.id.
  rewrite take_app_length, drop_app_length.
  rewrite (proj2 (Z.leb_le _ _)) by lia.
  by rewrite (proj2 (Z.leb_le _ _)) by lia.
Qed.

Lemma read_uint_be (k : nat) (kz n : Z) (t : list ascii) :
  kz = Z.of_nat k -> 0 <= n < 256 ^ kz ->
  read_uint kz (be k n ++ t) = Some (n, t).
Proof.
  intros -> Hn. unfold read_uint.
  rewrite <- (length_be k n) at 1. rewrite take_bytes_app. simpl.
  by rewrite unbe_be.
Qed.

Lemma read_int_be (k : nat) (kz m : Z) (t : list ascii) :
  kz = Z.of_nat k -> 0 < kz -> 2 ^ (8 * kz - 1) <= m < 2 ^ (8 * kz) ->
  read_int kz (be k m ++ t) = Some (m - 2 ^ (8 * kz), t).
Proof.
  intros Hk Hpos Hm. unfold read_int.
  assert (H256 : 256 ^ kz = 2 ^ (8 * kz)).
  { change 256 with (2 ^ 8). by rewrite <- Z.pow_mul_r by lia. }
  rewrite (read_uint_be k kz m t Hk) by lia. simpl.
  by rewrite (proj2 (Z.ltb_ge _ _)) by lia.
Qed.

Lemma unpack_cons (ul : bool) (fuel : nat) (b : ascii) (bs : list ascii) :
  unpack ul (S fuel) (b :: bs)
  = decode_tag ul (unpack_items ul fuel) (unpack_pairs ul fuel) (code b) bs.
Proof. reflexivity. Qed.

Lemma unpack_items_S (ul : bool) (fuel : nat) (n : Z) (bs : list ascii) :
  0 < n ->
  unpack_items ul (S fuel) n bs
  = '(x, bs) ← unpack ul fuel bs;
    '(l, bs) ← unpack_items ul fuel (n - 1) bs;
    Some (x :: l, bs).
Proof.
  intros Hn. simpl. by rewrite (proj2 (Z.leb_gt _ _)) by lia.
Qed.

Lemma unpack_items_0 (ul : bool) (fuel : nat) (bs : list ascii) :
  unpack_items ul fuel 0 bs = Some ([], bs).
Proof. by destruct fuel. Qed.

Lemma unpack_pairs_S (ul : bool) (fuel : nat) (n : Z) (bs : list ascii) :
  0 < n ->
  unpack_pairs ul (S fuel) n bs
  = '(k, bs) ← unpack ul fuel bs;
    if hashable k then
      '(x, bs) ← unpack ul fuel bs;
      '(d, bs) ← unpack_pairs ul fuel (n - 1) bs;
      Some ((k, x) :: d, bs)
    else None.
Proof.
  intros Hn. simpl. by rewrite (proj2 (Z.leb_gt _ _)) by lia.
Qed.

Lemma unpack_pairs_0 (ul : bool) (fuel : nat) (bs : list ascii) :
  unpack_pairs ul fuel 0 bs = Some ([], bs).
Proof. by destruct fuel. Qed.

(** Settles the comparisons of the type byte in [decode_tag]. *)
Ltac tag_step :=
  match goal with
  | |- context [if ?a <? ?b then _ else _] =>
      first [ rewrite (proj2 (Z.ltb_lt a b)) by lia
            | rewrite (proj2 (Z.ltb_ge a b)) by lia ]
  | |- context [if ?a <=? ?b then _ else _] =>
      first [ rewrite (proj2 (Z.leb_le a b)) by lia
            | rewrite (proj2 (Z.leb_gt a b)) by lia ]
  | |- context [if ?a =? ?b then _ else _] =>
      first [ rewrite (proj2 (Z.eqb_eq a b)) by lia
            | rewrite (proj2 (Z.eqb_neq a b)) by lia ]
  end.

Ltac read_tag :=
  cbn [app]; rewrite unpack_cons, code_byte by lia;
  unfold decode_tag; repeat tag_step.

Lemma unpack_int (ul : bool) (fuel : nat) (n : Z) (rest : list ascii) :
  - 2 ^ 63 <= n < 2 ^ 64 ->
  unpack ul (S fuel) (pack_int n ++ rest) = Some (VInt n, rest).
Proof.
  intros Hn. unfold pack_int.
  repeat match goal with
         | |- context [if ?a <=? ?b then _ else _] =>
             destruct (Z.leb_spec a b)
         | |- context [if ?a <? ?b then _ else _] =>
             destruct (Z.ltb_spec a b)
         end; read_tag.
  - done.
  - by rewrite (read_uint_be 1 1 n) by lia.
  - by rewrite (read_uint_be 2 2 n) by lia.
  - by rewrite (read_uint_be 4 4 n) by lia.
  - by rewrite (read_uint_be 8 8 n) by lia.
  - do 3 f_equal. lia.
  - rewrite (read_int_be 1 1) by lia. simpl. do 3 f_equal. lia.
  - rewrite (read_int_be 2 2) by lia. simpl. do 3 f_equal. lia.
  - rewrite (read_int_be 4 4) by lia. simpl. do 3 f_equal. lia.
  - rewrite (read_int_be 8 8) by lia. simpl. do 3 f_equal. lia.
Qed.

Lemma unpack_header (ul : bool) (fuel : nat) (fix_tag fix_max tag16 tag32 n : Z)
  (rest : list ascii) (P : option (pyval * list ascii) -> Prop) :
  0 <= n < 2 ^ 32 -> 0 <= fix_tag -> fix_tag + fix_max <= 256 ->
  0 <= tag16 < 256 -> 0 <= tag32 < 256 ->
  (n < fix_max ->
   P (decode_tag ul (unpack_items ul fuel) (unpack_pairs ul fuel)
        (fix_tag + n) rest)) ->
  (n < 2 ^ 16 ->
   P (decode_tag ul (unpack_items ul fuel) (unpack_pairs ul fuel)
        tag16 (be 2 n ++ rest))) ->
  (P (decode_tag ul (unpack_items ul fuel) (unpack_pairs ul fuel)
        tag32 (be 4 n ++ rest))) ->
  P (unpack ul (S fuel) (header fix_tag fix_max tag16 tag32 n ++ rest)).
Proof.
  intros Hn Hfix Hmax H16 H32 Hshort Hmid Hlong. unfold header.
  destruct (Z.ltb_spec n fix_max); [|destruct (Z.ltb_spec n (2 ^ 16))];
    cbn [app]; rewrite unpack_cons, code_byte by lia; auto.
Qed.

Lemma unpack_raw_header (ul : bool) (fuel : nat) (n : Z) (rest : list ascii) :
  0 <= n < 2 ^ 32 ->
  unpack ul (S fuel) (raw_header n ++ rest) = read_raw n rest.
Proof.
  intros Hn. unfold raw_header.
  apply unpack_header; try lia; [intros Hshort|intros Hmid|];
    unfold decode_tag; repeat tag_step.
  - f_equal. lia.
  - by rewrite (read_uint_be 2 2 n) by lia.
  - by rewrite (read_uint_be 4 4 n) by lia.
Qed.

Lemma unpack_array_header (ul : bool) (fuel : nat) (n : Z) (rest : list ascii) :
  0 <= n < 2 ^ 32 ->
  unpack ul (S fuel) (array_header n ++ rest)
  = '(l, bs) ← unpack_items ul fuel n rest; Some (sequence ul l, bs).
Proof.
  intros Hn. unfold array_header.
  apply unpack_header; try lia; [intros Hshort|intros Hmid|];
    unfold decode_tag; repeat tag_step.
  - by replace (144 + n - 144) with n by lia.
  - by rewrite (read_uint_be 2 2 n) by lia.
  - by rewrite (read_uint_be 4 4 n) by lia.
Qed.

Lemma unpack_map_header (ul : bool) (fuel : nat) (n : Z) (rest : list ascii) :
  0 <= n < 2 ^ 32 ->
  unpack ul (S fuel) (map_header n ++ rest)
  = '(d, bs) ← unpack_pairs ul fuel n rest; Some (VDict d, bs).
Proof.
  intros Hn. unfold map_header.
  apply unpack_header; try lia; [intros Hshort|intros Hmid|];
    unfold decode_tag; repeat tag_step.
  - by replace (128 + n - 128) with n by lia.
  - by rewrite (read_uint_be 2 2 n) by lia.
  - by rewrite (read_uint_be 4 4 n) by lia.
Qed.

Lemma length_list_ascii_of_string (s : string) :
  length (list_ascii_of_string s) = String.length s.
Proof. induction s as [|c s IH]; simpl; congruence. Qed.

Lemma read_raw_string (s : string) (rest : list ascii) :
  read_raw (Z.of_nat (String.length s)) (list_ascii_of_string s ++ rest)
  = Some (VStr s, rest).
Proof.
  unfold read_raw.
  rewrite <- length_list_ascii_of_string, take_bytes_app. simpl.
  by rewrite string_of_list_ascii_of_string.
Qed.

(** A hashable value holds no list: read back with tuples it is itself. *)
Lemma hashable_tuplify (v : pyval) : hashable v = true -> tuplify v = v.
Proof.
  induction v as [| | | | |l IH|l IH|d IH] using pyval_nested_ind;
    simpl; try done.
  intros Hl. unfold tuplify. simpl. f_equal.
  induction IH as [|x l Hx _ IHl]; simpl in *; [done|].
  apply andb_true_iff in Hl as [Hx' Hl].
  f_equal; [by apply Hx | by apply IHl].
Qed.

(** Fuel that is enough to read the encoding of [v] back. *)
Fixpoint need (v : pyval) : nat :=
  match v with
  | VList l | VTuple l => S (length l + list_sum (map need l))
  | VDict d =>
      S (length d
         + list_sum (map (fun kv => match kv with
                                    | (k, x) => need k + need x
                                    end) d))
  | _ => 1
  end%nat.

Definition reads_back (v : pyval) : Prop :=
  packable v = true ->
  forall fuel rest, (need v <= fuel)%nat ->
    unpack false fuel (pack v ++ rest) = Some (tuplify v, rest).

Lemma unpack_items_pack (l : list pyval) :
  Forall reads_back l -> forallb packable l = true ->
  forall fuel rest, (length l + list_sum (map need l) <= fuel)%nat ->
    unpack_items false fuel (Z.of_nat (length l)) (flat_map pack l ++ rest)
    = Some (map tuplify l, rest).
Proof.
  induction 1 as [|x l Hx _ IH]; intros Hp fuel rest Hfuel.
  - apply unpack_items_0.
  - simpl in Hp, Hfuel. apply andb_true_iff in Hp as [Hpx Hpl].
    destruct fuel as [|fuel]; [lia|].
    rewrite unpack_items_S by (simpl length; lia).
    simpl flat_map. rewrite <- app_assoc.
    rewrite (Hx Hpx) by lia. simpl.
    replace (Z.of_nat (S (length l)) - 1) with (Z.of_nat (length l)) by lia.
    by rewrite IH by (done || lia).
Qed.

Lemma unpack_pairs_pack (d : list (pyval * pyval)) :
  Forall (fun kv => reads_back (fst kv) /\ reads_back (snd kv)) d ->
  forallb (fun kv => match kv with
                     | (k, x) => hashable k && packable k && packable x
                     end) d = true ->
  forall fuel rest,
    (length d
     + list_sum (map (fun kv => match kv with
                                | (k, x) => need k + need x
                                end) d) <= fuel)%nat ->
    unpack_pairs false fuel (Z.of_nat (length d))
      (flat_map (fun kv => match kv with (k, x) => pack k ++ pack x end) d
       ++ rest)
    = Some (map (fun kv => match kv with
                           | (k, x) => (tuplify k, tuplify x)
                           end) d, rest).
Proof.
  induction 1 as [|[k x] d [Hk Hx] _ IH]; intros Hp fuel rest Hfuel.
  - apply unpack_pairs_0.
  - simpl in Hp, Hfuel, Hk, Hx.
    apply andb_true_iff in Hp as [Hp Hpd].
    apply andb_true_iff in Hp as [Hp Hpx].
    apply andb_true_iff in Hp as [Hhk Hpk].
    destruct fuel as [|fuel]; [lia|].
    rewrite unpack_pairs_S by (simpl length; lia).
    simpl flat_map. rewrite <- !app_assoc.
    rewrite (Hk Hpk) by lia. simpl.
    rewrite (hashable_tuplify k Hhk), Hhk.
    rewrite (Hx Hpx) by lia. simpl.
    replace (Z.of_nat (S (length d)) - 1) with (Z.of_nat (length d)) by lia.
    by rewrite IH by (done || lia).
Qed.

Lemma unpack_pack (v : pyval) : reads_back v.
Proof.
  induction v as [|b|n|bits|s|l IH|l IH|d IH] using pyval_nested_ind;
    intros Hp fuel rest Hfuel;
    (destruct fuel as [|fuel]; [simpl in Hfuel; lia|]); simpl in Hp.
  - simpl pack. by read_tag.
  - destruct b; simpl pack; by read_tag.
  - apply unpack_int.
    apply andb_true_iff in Hp as [?%Z.leb_le ?%Z.ltb_lt]. lia.
  - apply andb_true_iff in Hp as [?%Z.leb_le ?%Z.ltb_lt].
    cbn [pack]. read_tag. by rewrite (read_uint_be 8 8 bits) by lia.
  - simpl pack. rewrite <- app_assoc.
    apply Z.ltb_lt in Hp.
    rewrite unpack_raw_header by lia. apply read_raw_string.
  - apply andb_true_iff in Hp as [Hlen%Z.ltb_lt Hp].
    simpl pack. rewrite <- app_assoc, unpack_array_header by lia.
    simpl in Hfuel.
    by rewrite unpack_items_pack by (done || lia).
  - apply andb_true_iff in Hp as [Hlen%Z.ltb_lt Hp].
    simpl pack. rewrite <- app_assoc, unpack_array_header by lia.
    simpl in Hfuel.
    by rewrite unpack_items_pack by (done || lia).
  - apply andb_true_iff in Hp as [Hlen%Z.ltb_lt Hp].
    simpl pack. rewrite <- app_assoc, unpack_map_header by lia.
    simpl in Hfuel.
    by rewrite unpack_pairs_pack by (done || lia).
Qed.

Lemma pack_int_nonempty (n : Z) : (0 < length (pack_int n))%nat.
Proof.
  unfold pack_int. repeat case_match; simpl; lia.
Qed.

Lemma header_nonempty (fix_tag fix_max tag16 tag32 n : Z) :
  (0 < length (header fix_tag fix_max tag16 tag32 n))%nat.
Proof.
  unfold header. repeat case_match; simpl; lia.
Qed.

Lemma need_bound (v : pyval) : (need v < 2 * length (pack v))%nat.
Proof.
  induction v as [|b|n|bits|s|l IH|l IH|d IH] using pyval_nested_ind; simpl.
  - lia.
  - destruct b; simpl; lia.
  - pose proof (pack_int_nonempty n). lia.
  - lia.
  - rewrite length_app.
    pose proof (header_nonempty 0xa0 32 0xda 0xdb (Z.of_nat (String.length s))).
    unfold raw_header. lia.
  - rewrite length_app.
    pose proof (header_nonempty 0x90 16 0xdc 0xdd (Z.of_nat (length l))).
    unfold array_header.
    enough (length l + list_sum (map need l) <= 2 * length (flat_map pack l))%nat
      by lia.
    clear -IH. induction IH as [|x l Hx _ IHl]; simpl; [lia|].
    rewrite length_app. lia.
  - rewrite length_app.
    pose proof (header_nonempty 0x90 16 0xdc 0xdd (Z.of_nat (length l))).
    unfold array_header.
    enough (length l + list_sum (map need l) <= 2 * length (flat_map pack l))%nat
      by lia.
    clear -IH. induction IH as [|x l Hx _ IHl]; simpl; [lia|].
    rewrite length_app. lia.
  - rewrite length_app.
    pose proof (header_nonempty 0x80 16 0xde 0xdf (Z.of_nat (length d))).
    unfold map_header.
    set (needs := map _ d). set (body := flat_map _ d).
    enough (length d + list_sum needs <= 2 * length body)%nat by lia.
    subst needs body.
    clear -IH. induction IH as [|[k x] d [Hk Hx] _ IHd]; simpl in *; [lia|].
    rewrite !length_app. lia.
Qed.

Lemma packb_total (v : pyval) : packable v = true -> is_Some (packb v).
Proof. intros Hp. unfold packb. rewrite Hp. eauto. Qed.

Lemma unpackb_packb (v : pyval) (raw : string) :
  packable v = true -> packb v = Some raw ->
  unpackb false raw = Some (tuplify v).
Proof.
  unfold packb. intros Hp. rewrite Hp. intros [= <-].
  unfold unpackb. rewrite list_ascii_of_string_of_list_ascii.
  pose proof (need_bound v) as Hneed.
  rewrite <- (app_nil_r (pack v)) at 2.
  by rewrite (unpack_pack v Hp) by lia.
Qed.

(** The reference implementation as an instance of the contract. *)
Definition reference : MsgPack :=
  Build_MsgPack packb unpackb packb_total unpackb_packb.

End RefCodec.

(** ** A registry and a catalogue *)

Module SpecModel.

Definition is_str (v : pyval) : bool :=
  match v with VStr _ => true | _ => false end.

Definition nonempty_str (v : pyval) : bool :=
  match v with
  | VStr s => negb (Nat.eqb (String.length s) 0)
  | _ => false
  end.

Definition is_int (v : pyval) : bool :=
  match v with VInt _ => true | _ => false end.

Definition identifier (v : pyval) : bool :=
  match v with
  | VStr s => Nat.eqb (String.length s) 64
  | _ => false
  end.

Definition sequence_of (p : pyval -> bool) (v : pyval) : bool :=
  match v with
  | VList l | VTuple l => forallb p l
  | _ => false
  end.

Definition string_pair (v : pyval) : bool :=
  match v with
  | VList [VStr _; VStr _] | VTuple [VStr _; VStr _] => true
  | _ => false
  end.

Definition string_dict (v : pyval) : bool :=
  match v with
  | VDict d =>
      forallb (fun kv => match kv with (k, x) => is_str k && is_str x end) d
  | _ => false
  end.

Definition timestamp (v : pyval) : bool :=
  match v with
  | VInt n => 0 <=? n
  | _ => false
  end.

(** Modelled from the spec: the registry [validators.VALIDATORS] is imported
    from a module that is not part of the sources.  The design document
    gives, for each field, the shape its validator checks (sections 3, 4.1
    and 6): [uuid] a non-empty string; [node] and [key] identifiers of a
    fixed length, that of a SHA-512 hash, 64 bytes; [version] a string or
    an integer; [timestamp] and [expires] integers, the first one not
    negative; [meta] a sequence of two-element sequences of strings;
    [details] a mapping from strings to strings; [nodes] a sequence;
    [public_key] and [sig] byte strings; [value] is not constrained. *)
Definition VALIDATORS : gmap string (pyval -> bool) :=
  list_to_map
    [("uuid", nonempty_str); ("node", identifier);
     ("version", fun v => nonempty_str v || is_int v);
     ("code", is_int); ("title", is_str); ("details", string_dict);
     ("key", identifier); ("value", fun _ => true);
     ("timestamp", timestamp); ("expires", is_int);
     ("public_key", nonempty_str); ("name", is_str);
     ("meta", sequence_of string_pair); ("sig", nonempty_str);
     ("nodes", sequence_of (fun _ => true))].

(** Modelled from the spec: the catalogue [drogulus.constants.ERRORS] is
    not part of the sources either; the design document says that it
    supplies a text for each numeric error code.  The text of code 2 is a
    placeholder. *)
Definition ERRORS : gmap Z string := {[ 2 := "Bad message" ]}.

(** A stand-in for the builtin [str()] on objects that are not strings;
    the examples below format strings only. *)
Definition py_str (v : pyval) : string := "<object>".

(** [from_msgpack] and [to_msgpack] over the reference library and this
    registry. *)
Definition decode : string -> result msg :=
  @from_msgpack RefCodec.reference VALIDATORS ERRORS py_str.

Definition encode : msg -> result string :=
  @to_msgpack RefCodec.reference.

(** The bytes of a Python object. *)
Definition wire (v : pyval) : string :=
  string_of_list_ascii (RefCodec.pack v).

End SpecModel.

(** *** Sample data *)

(** A 64-byte identifier, and its first 8 bytes. *)
Definition id64 : string :=
  "0123456789abcdef0123456789abcdef0123456789abcdef0123456789abcdef".
Definition id8 : string := "01234567".

Definition ping_map (node : string) : list (pyval * pyval) :=
  [(VStr "message", VStr "ping"); (VStr "uuid", VStr "abc123");
   (VStr "node", VStr node); (VStr "version", VStr "1.0")].

(** A [Store] message; [meta] is the only field that varies. *)
Definition store (meta : pyval) : msg :=
  Msg Store
    [VStr "abc123"; VStr id64; VStr id64; VStr "the value"; VInt 1350544046;
     VInt 0; VStr "a public key"; VStr "a name"; meta; VStr "a signature";
     VStr "1.0"].

Definition list_meta : pyval := VList [VTuple [VStr "k"; VStr "v"]].
Definition tuple_meta : pyval := VTuple [VTuple [VStr "k"; VStr "v"]].

(** The same [Store] with another [value] and another [expires]. *)
Definition store_of (value expires : pyval) : msg :=
  Msg Store
    [VStr "abc123"; VStr id64; VStr id64; value; VInt 1350544046;
     expires; VStr "a public key"; VStr "a name"; tuple_meta;
     VStr "a signature"; VStr "1.0"].

(** [1.5] and [float('nan')]. *)
Definition one_and_a_half : pyval := VFloat 0x3ff8000000000000.
Definition nan : pyval := VFloat 0x7ff8000000000000.

(** *** The statements at work *)

Import SpecModel.

Lemma SpecModel_registered (k : klass) : registered VALIDATORS (_fields k).
Proof.
  intros field Hin.
  destruct k; simpl in Hin;
    repeat (apply elem_of_cons in Hin as [->|Hin];
            [eexists; vm_compute; reflexivity|]);
    by apply elem_of_nil in Hin.
Qed.

(** C1, the claim as written fails, in three ways.  A [Store] whose [meta]
    is a list of tuples, as the docstring of the class describes it, passes
    validation, and what comes back from the wire holds a tuple of tuples,
    which is not [==] to the list.  A [Store] whose [value] is a NaN passes
    validation too and comes back with the same NaN, which is not [==] to
    the NaN that was sent.  And a [Store] whose [expires] is [2^64] passes
    validation and cannot be encoded at all. *)
Lemma roundtrip_counterexample :
  (valid_msg VALIDATORS (store list_meta) = true
   /\ (encode (store list_meta) ≫= decode) = Return (store tuple_meta)
   /\ py_eq_msg (store tuple_meta) (store list_meta) = false)
  /\ (valid_msg VALIDATORS (store_of nan (VInt 0)) = true
      /\ (encode (store_of nan (VInt 0)) ≫= decode)
         = Return (store_of nan (VInt 0))
      /\ py_eq_msg (store_of nan (VInt 0)) (store_of nan (VInt 0)) = false)
  /\ (valid_msg VALIDATORS (store_of (VStr "the value") (VInt (2 ^ 64)))
      = true
      /\ encode (store_of (VStr "the value") (VInt (2 ^ 64)))
         = Raise PackException).
Proof.
  split; [|split]; by vm_compute.
Qed.

(** C1: a [Store] with a tuple of tuples and a float. *)
Lemma roundtrip_witness :
  valid_msg VALIDATORS (store_of one_and_a_half (VInt 0)) = true
  /\ exists m',
       (encode (store_of one_and_a_half (VInt 0)) ≫= decode) = Return m'
       /\ msg_class m' = Store
       /\ py_eq_msg m' (store_of one_and_a_half (VInt 0)) = true.
Proof.
  split; [by vm_compute|].
  apply (roundtrip VALIDATORS ERRORS py_str (store_of one_and_a_half (VInt 0)));
    by vm_compute.
Defined.

(** C6, the claim as written fails: a [Store] with one validated value per
    field, of which [expires] is [2^64], is not encoded: [packb] has no
    integer of more than 64 bits. *)
Lemma to_msgpack_overflow_counterexample :
  valid_msg VALIDATORS (store_of (VStr "the value") (VInt (2 ^ 64))) = true
  /\ wf_msg (store_of (VStr "the value") (VInt (2 ^ 64)))
  /\ encode (store_of (VStr "the value") (VInt (2 ^ 64)))
     = Raise PackException.
Proof.
  split; [|split]; by vm_compute.
Qed.



(** C2: a ping without [uuid] and [version] and with a short [node]. *)
Lemma every_field_error_reported_witness :
  exists errors,
    decode (wire (VDict [(VStr "message", VStr "ping");
                         (VStr "node", VStr id8)]))
    = Raise (ValueError 2 "Bad message" errors)
    /\ size errors = 3%nat
    /\ (forall field,
          errors !! field = Some "Missing field."
          <-> field ∈ ["uuid"; "version"])
    /\ (forall field,
          errors !! field = Some "Invalid value." <-> field ∈ ["node"]).
Proof.
  apply (every_field_error_reported VALIDATORS ERRORS py_str
           (wire (VDict [(VStr "message", VStr "ping");
                         (VStr "node", VStr id8)]))
           [(VStr "message", VStr "ping"); (VStr "node", VStr id8)]
           Ping "Bad message").
  - by vm_compute.
  - by vm_compute.
  - apply SpecModel_registered.
  - by vm_compute.
  - by vm_compute.
Defined.

(** C3: the tag ['unknown']. *)
Lemma unknown_tag_raises_witness :
  decode (wire (VDict [(VStr "message", VStr "unknown")]))
  = Raise (ValueError 2 "Bad message"
             {[ "context" := "unknown is not a valid message type." ]}).
Proof.
  apply (unknown_tag_raises VALIDATORS ERRORS py_str
           (wire (VDict [(VStr "message", VStr "unknown")]))
           [(VStr "message", VStr "unknown")] "unknown" "Bad message").
  - by vm_compute.
  - by vm_compute.
  - by apply (bool_decide_unpack _).
  - by vm_compute.
Defined.

(** C5, the claim as written fails: a ping map with one entry more than the
    declared fields and ['message'] decodes to the [Ping] all the same. *)
Lemma extra_entry_counterexample :
  dict_get (ping_map id64 ++ [(VStr "extra", VInt 1)]) "extra"
  = Some (VInt 1)
  /\ ("extra" ∉ "message" :: _fields Ping)
  /\ decode (wire (VDict (ping_map id64 ++ [(VStr "extra", VInt 1)])))
     = Return (Msg Ping [VStr "abc123"; VStr id64; VStr "1.0"]).
Proof.
  split; [by vm_compute|]. split; [|by vm_compute].
  by apply (bool_decide_unpack _).
Qed.

(** C5: a ping map without [node] is rejected, and the extra entry changes
    nothing to the decoding of the complete map. *)
Lemma declared_fields_decide_witness :
  (exists errors,
     decode (wire (VDict [(VStr "message", VStr "ping");
                          (VStr "uuid", VStr "abc123");
                          (VStr "version", VStr "1.0")]))
     = Raise (ValueError 2 "Bad message" errors)
     /\ errors !! "node" = Some "Missing field.")
  /\ decode (wire (VDict (ping_map id64 ++ [(VStr "extra", VInt 1)])))
     = decode (wire (VDict (ping_map id64))).
Proof.
  split.
  - apply (declared_fields_decide VALIDATORS ERRORS py_str
             (wire (VDict [(VStr "message", VStr "ping");
                           (VStr "uuid", VStr "abc123");
                           (VStr "version", VStr "1.0")]))
             [(VStr "message", VStr "ping"); (VStr "uuid", VStr "abc123");
              (VStr "version", VStr "1.0")] Ping);
      try by vm_compute.
    + apply SpecModel_registered.
    + by apply (bool_decide_unpack _).
  - destruct (declared_fields_decide (msgpack := RefCodec.reference)
                VALIDATORS ERRORS py_str
                (wire (VDict (ping_map id64))) (ping_map id64) Ping)
      as [_ Hsame]; [by vm_compute..|].
    apply (Hsame _ (ping_map id64 ++ [(VStr "extra", VInt 1)]));
      try by vm_compute.
    intros field Hin. simpl in Hin.
    repeat (apply elem_of_cons in Hin as [->|Hin]; [by vm_compute|]).
    by apply elem_of_nil in Hin.
Defined.

(** C6: a [FindNode]. *)
Lemma to_msgpack_shape_witness :
  exists raw,
    encode (Msg FindNode [VStr "abc123"; VStr id64; VStr id64; VStr "1.0"])
    = Return raw
    /\ RefCodec.packb
         (VDict [(VStr "uuid", VStr "abc123"); (VStr "node", VStr id64);
                 (VStr "key", VStr id64); (VStr "version", VStr "1.0");
                 (VStr "message", VStr "findnode")])
       = Some raw.
Proof.
  destruct (to_msgpack_shape (msgpack := RefCodec.reference)
              (Msg FindNode [VStr "abc123"; VStr id64; VStr id64; VStr "1.0"]))
    as [Hraw _]; [by vm_compute..|].
  exact Hraw.
Defined.

(** C8: the scenario on the registry modelled from the design document. *)
Lemma ping_scenario_witness :
  decode (wire (VDict (ping_map id64)))
  = Return (Msg Ping [VStr "abc123"; VStr id64; VStr "1.0"])
  /\ decode (wire (VDict (ping_map id8)))
     = Raise (ValueError 2 "Bad message" {[ "node" := "Invalid value." ]}).
Proof.
  apply (ping_scenario VALIDATORS ERRORS py_str
           (wire (VDict (ping_map id64))) (wire (VDict (ping_map id8)))
           (ping_map id64) (ping_map id8) id64 id8 "Bad message"
           nonempty_str identifier (fun v => nonempty_str v || is_int v));
    by vm_compute.
Defined.

(** C9: ['Ping'] and ['PING'] are not ['ping']. *)
Lemma tag_match_is_case_sensitive_witness :
  decode (wire (VDict [(VStr "message", VStr "Ping")]))
  = Raise (ValueError 2 "Bad message"
             {[ "context" := "Ping is not a valid message type." ]})
  /\ decode (wire (VDict [(VStr "message", VStr "PING")]))
     = Raise (ValueError 2 "Bad message"
                {[ "context" := "PING is not a valid message type." ]}).
Proof.
  split.
  - apply (tag_match_is_case_sensitive VALIDATORS ERRORS py_str
             (wire (VDict [(VStr "message", VStr "Ping")]))
             [(VStr "message", VStr "Ping")] Ping "Ping" "Bad message");
      by vm_compute.
  - apply (tag_match_is_case_sensitive VALIDATORS ERRORS py_str
             (wire (VDict [(VStr "message", VStr "PING")]))
             [(VStr "message", VStr "PING")] Ping "PING" "Bad message");
      by vm_compute.
Defined.

(** *** The further properties at work *)

(** X1: the [Store] with a list of tuples comes back with a tuple of
    tuples. *)
Lemma encode_then_decode_witness :
  (encode (store list_meta) ≫= decode) = Return (store tuple_meta).
Proof.
  apply (encode_then_decode VALIDATORS ERRORS py_str (store list_meta));
    by vm_compute.
Defined.

(** X2: the ping of the scenario. *)
Lemma decoded_message_is_valid_witness :
  decode (wire (VDict (ping_map id64)))
  = Return (Msg Ping [VStr "abc123"; VStr id64; VStr "1.0"])
  /\ valid_msg VALIDATORS (Msg Ping [VStr "abc123"; VStr id64; VStr "1.0"])
     = true
  /\ wf_msg (Msg Ping [VStr "abc123"; VStr id64; VStr "1.0"]).
Proof.
  split; [by vm_compute|].
  destruct (decoded_message_is_valid (msgpack := RefCodec.reference)
              VALIDATORS ERRORS py_str (wire (VDict (ping_map id64)))
              (Msg Ping [VStr "abc123"; VStr id64; VStr "1.0"]))
    as (Hvalid & Hwf & _); [by vm_compute|].
  by split.
Defined.

(** X3: the two [Store]s, with a list and with a tuple, have the same
    encoding. *)
Lemma encoding_is_injective_witness :
  encode (store list_meta) = encode (store tuple_meta)
  /\ tuplify_msg (store list_meta) = tuplify_msg (store tuple_meta).
Proof.
  split; [by vm_compute|].
  apply (encoding_is_injective (msgpack := RefCodec.reference)
           (store list_meta) (store tuple_meta)
           (wire (VDict (wire_map (store list_meta)))));
    by vm_compute.
Defined.

(** X4: two round trips of the [Store] with a list. *)
Lemma round_trip_is_idempotent_witness :
  ((encode (store list_meta) ≫= decode) ≫= fun m' => encode m' ≫= decode)
  = (encode (store list_meta) ≫= decode).
Proof.
  apply (round_trip_is_idempotent VALIDATORS ERRORS py_str
           (store list_meta));
    by vm_compute.
Defined.

(** X6: a registry that knows [uuid] only, and a ping without [uuid]: the
    missing [uuid] is not reported, [node] raises. *)
Lemma missing_validator_preempts_report_witness :
  make_message {[ "uuid" := nonempty_str ]} ERRORS Ping
    [(VStr "message", VStr "ping"); (VStr "node", VStr id64)]
  = Raise (KeyError (VStr "node")).
Proof.
  apply (missing_validator_preempts_report {[ "uuid" := nonempty_str ]}
           ERRORS Ping
           [(VStr "message", VStr "ping"); (VStr "node", VStr id64)]
           ["uuid"] ["version"] "node" (VStr id64)); try by vm_compute.
  intros f Hf. apply list_elem_of_singleton in Hf as ->. by vm_compute.
Defined.

(** X7: a map that holds ['message': 'ping'] only. *)
Lemma bare_tag_reports_every_field_witness :
  exists errors,
    decode (wire (VDict [(VStr "message", VStr "ping")]))
    = Raise (ValueError 2 "Bad message" errors)
    /\ size errors = 3%nat
    /\ (forall field,
          errors !! field = Some "Missing field."
          <-> field ∈ ["uuid"; "node"; "version"]).
Proof.
  apply (bare_tag_reports_every_field VALIDATORS ERRORS py_str
           (wire (VDict [(VStr "message", VStr "ping")]))
           [(VStr "message", VStr "ping")] Ping "Bad message");
    try by vm_compute.
  intros field Hin. simpl in Hin.
  repeat (apply elem_of_cons in Hin as [->|Hin]; [by vm_compute|]).
  by apply elem_of_nil in Hin.
Defined.

(** X8: the tags [()] and [('ping',)]. *)
Lemma tuple_tag_outcome_witness :
  decode (wire (VDict [(VStr "message", VTuple [])])) = Raise TypeError
  /\ decode (wire (VDict [(VStr "message", VTuple [VStr "ping"])]))
     = Raise (ValueError 2 "Bad message"
                {[ "context" := "ping is not a valid message type." ]}).
Proof.
  split.
  - apply (tuple_tag_outcome VALIDATORS ERRORS py_str
             (wire (VDict [(VStr "message", VTuple [])]))
             [(VStr "message", VTuple [])] [] "Bad message");
      by vm_compute.
  - apply (tuple_tag_outcome VALIDATORS ERRORS py_str
             (wire (VDict [(VStr "message", VTuple [VStr "ping"])]))
             [(VStr "message", VTuple [VStr "ping"])] [VStr "ping"]
             "Bad message");
      by vm_compute.
Defined.

(** X9: a [Ping] with an 8-byte [node] is encoded, and rejected when it is
    decoded. *)
Lemma invalid_message_is_rejected_on_decode_witness :
  exists errors,
    (encode (Msg Ping [VStr "abc123"; VStr id8; VStr "1.0"]) ≫= decode)
    = Raise (ValueError 2 "Bad message" errors)
    /\ errors !! "node" = Some "Invalid value."
    /\ errors !! "uuid" = None.
Proof.
  destruct (invalid_message_is_rejected_on_decode
              (msgpack := RefCodec.reference) VALIDATORS ERRORS py_str
              (Msg Ping [VStr "abc123"; VStr id8; VStr "1.0"]) "Bad message")
    as (errors & Hraise & Hkind & Hfields);
    [by vm_compute| by vm_compute | apply SpecModel_registered
    | by vm_compute | by vm_compute |].
  exists errors. split; [exact Hraise|]. split.
  - apply (Hfields 1%nat "node" (VStr id8)); by vm_compute.
  - destruct (errors !! "uuid") as [why|] eqn:Hwhy; [|done].
    rewrite (Hkind "uuid" why Hwhy) in Hwhy.
    apply (Hfields 0%nat "uuid" (VStr "abc123")) in Hwhy;
      by vm_compute in Hwhy.
Defined.

(** X10: the map of the ping, handed to [make_message] for [Pong]. *)
Lemma same_fields_same_payload_witness :
  make_message VALIDATORS ERRORS Pong (ping_map id64)
  = Return (Msg Pong [VStr "abc123"; VStr id64; VStr "1.0"]).
Proof.
  exact (same_fields_same_payload VALIDATORS ERRORS Ping Pong
           (ping_map id64) eq_refl).
Defined.

(** X11: the report on a short [node]. *)
Lemma value_errors_are_distinguishable_witness :
  decode (wire (VDict (ping_map id8)))
  = Raise (ValueError 2 "Bad message" {[ "node" := "Invalid value." ]})
  /\ (ValueError 2 "Bad message" {[ "node" := "Invalid value." ]} = TypeError
      \/ (exists key,
            ValueError 2 "Bad message" {[ "node" := "Invalid value." ]}
            = KeyError key)
      \/ (exists title details,
            ValueError 2 "Bad message" {[ "node" := "Invalid value." ]}
            = ValueError 2 title details
            /\ ERRORS !! 2 = Some title
            /\ ((exists context, details = {[ "context" := context ]})
                \/ (details <> ∅ /\ details !! "context" = None
                    /\ exists k, forall field why,
                         details !! field = Some why ->
                         field ∈ _fields k
                         /\ (why = "Missing field."
                             \/ why = "Invalid value."))))).
Proof.
  split; [by vm_compute|].
  apply (value_errors_are_distinguishable (msgpack := RefCodec.reference)
           VALIDATORS ERRORS py_str
           (wire (VDict (ping_map id8))) (VDict (ping_map id8)));
    by vm_compute.
Defined.
